(** * Toelettatura booking backend: a model of [backend/server.js]

  The server is a single Express application in front of a PostgreSQL
  store.  This development embeds the request handlers as functions over an
  explicit store state, with the schema of [initDatabase] as the data model,
  and proves the properties of the booking lifecycle and of the
  authentication gate.

  Layout:
  - [JS]      values of a parsed JSON body, truthiness, [split], [JSON.stringify];
  - [Pg]      the driver's parameter rendering and the column input functions;
  - the tables and the four SQL statements the handlers issue;
  - the handlers ([authenticateToken], login, services, appointments);
  - the listing of appointments, a read of the store;
  - the theorems.

  What the model leaves out: the routes that carry no state ([/health],
  [/api/test], the 404 fallback); failures of the connection to the store
  (a statement fails only for what it carries); characters outside one
  byte. *)

From stdpp Require Import base option list gmap strings sorting pretty.
From Stdlib Require Import ZArith Ascii String.

Set Warnings "-register-all".

Local Open Scope string_scope.
Local Open Scope Z_scope.

(** ** JavaScript values *)

Module JS.

(** A value produced by [express.json()] ([JSON.parse]).  Numbers are the
    integral ones below 1e21 in magnitude, whose [toString] is the plain
    decimal numeral; an object is its list of members in enumeration
    order. *)
Inductive json : Type :=
| JNull
| JBool (b : bool)
| JNum (n : Z)
| JStr (s : string)
| JArr (items : list json)
| JObj (members : list (string * json)).

(** A property of [req.body]: [None] is [undefined] (the key is absent). *)
Definition value : Type := option json.

(** [!!v]: the falsy values are [undefined], [null], [false], [0] and the
    empty string; arrays and objects are truthy. *)
Definition truthy (v : value) : bool :=
  match v with
  | None => false
  | Some JNull => false
  | Some (JBool b) => b
  | Some (JNum n) => negb (n =? 0)
  | Some (JStr s) => negb (String.eqb s "")
  | Some (JArr _) => true
  | Some (JObj _) => true
  end.

(** [s.split(c)] for a one-character separator: always at least one
    component, empty components kept. *)
Fixpoint split (sep : ascii) (s : string) : list string :=
  match s with
  | EmptyString => [EmptyString]
  | String c rest =>
      if Ascii.eqb c sep then EmptyString :: split sep rest
      else match split sep rest with
           | first :: others => String c first :: others
           | [] => [String c EmptyString]
           end
  end.

(** [Number.prototype.toString] on the modelled numbers. *)
Definition number_to_string (n : Z) : string := pretty n.

Definition hex_digit (n : N) : ascii :=
  match n with
  | 0 => "0" | 1 => "1" | 2 => "2" | 3 => "3" | 4 => "4" | 5 => "5"
  | 6 => "6" | 7 => "7" | 8 => "8" | 9 => "9" | 10 => "a" | 11 => "b"
  | 12 => "c" | 13 => "d" | 14 => "e" | _ => "f"
  end%N%char.

Definition dquote : string := String (ascii_of_N 34) EmptyString.
Definition backslash : ascii := ascii_of_N 92.

(** The escape [JSON.stringify] writes for one character of a string. *)
Definition quote_char (c : ascii) : string :=
  let n := N_of_ascii c in
  if (n =? 34)%N then String backslash dquote
  else if (n =? 92)%N then String backslash (String backslash EmptyString)
  else if (n =? 8)%N then String backslash "b"
  else if (n =? 9)%N then String backslash "t"
  else if (n =? 10)%N then String backslash "n"
  else if (n =? 12)%N then String backslash "f"
  else if (n =? 13)%N then String backslash "r"
  else if (n <? 32)%N then
    String backslash
      ("u00" +:+ String (hex_digit (n / 16)) (String (hex_digit (n mod 16)) EmptyString))
  else String c EmptyString.

Fixpoint quote_chars_with (escape : ascii -> string) (s : string) : string :=
  match s with
  | EmptyString => EmptyString
  | String c rest => escape c +:+ quote_chars_with escape rest
  end.

Definition quote_chars : string -> string := quote_chars_with quote_char.

Definition quote (s : string) : string := dquote +:+ quote_chars s +:+ dquote.

Definition join (sep : string) (parts : list string) : string :=
  String.concat sep parts.

(** [JSON.stringify] on a JSON value. *)
Fixpoint stringify (j : json) : string :=
  match j with
  | JNull => "null"
  | JBool true => "true"
  | JBool false => "false"
  | JNum n => number_to_string n
  | JStr s => quote s
  | JArr items => "[" +:+ join "," (map stringify items) +:+ "]"
  | JObj members =>
      "{" +:+ join "," (map (fun kv => quote (fst kv) +:+ ":" +:+ stringify (snd kv)) members)
          +:+ "}"
  end.

(** [JSON.stringify(v)]: [undefined] stays [undefined]. *)
Definition JSON_stringify (v : value) : option string :=
  option_map stringify v.

End JS.

(** ** The PostgreSQL driver and the column types of the schema *)

Module Pg.

(** SQLSTATE classes of the errors a statement of this program can raise. *)
Inductive sqlstate : Type :=
| invalid_text_representation
| numeric_value_out_of_range
| string_data_right_truncation
| character_not_in_repertoire
| sequence_generator_limit_exceeded
| invalid_datetime_format
| not_null_violation
| foreign_key_violation.

(** A statement either raises (the promise of [pool.query] rejects) or
    yields a value. *)
Definition result (A : Type) : Type := sqlstate + A.

Definition ok {A} (a : A) : result A := inr a.
Definition raise {A} (e : sqlstate) : result A := inl e.

Definition bind {A B} (r : result A) (k : A -> result B) : result B :=
  match r with
  | inl e => inl e
  | inr a => k a
  end.

Definition from_option {A} (e : sqlstate) (o : option A) : result A :=
  match o with
  | Some a => inr a
  | None => inl e
  end.

(** A nullable column or parameter: the input function runs on a value
    that is present, NULL passes through. *)
Definition nullable {A B} (f : A -> result B) (p : option A) : result (option B) :=
  match p with
  | None => inr None
  | Some a => bind (f a) (fun b => inr (Some b))
  end.

(** *** Parameters, as node-postgres sends them ([prepareValue]) *)

Definition escapeElement (text : string) : string :=
  let escape c :=
    if orb (Ascii.eqb c JS.backslash) (Ascii.eqb c (ascii_of_N 34))
    then String JS.backslash (String c EmptyString) else String c EmptyString in
  JS.dquote +:+ JS.quote_chars_with escape text +:+ JS.dquote.

(** One element of an array parameter ([arrayString]). *)
Fixpoint array_element (j : JS.json) : string :=
  match j with
  | JS.JNull => "NULL"
  | JS.JBool true => escapeElement "true"
  | JS.JBool false => escapeElement "false"
  | JS.JNum n => escapeElement (JS.number_to_string n)
  | JS.JStr s => escapeElement s
  | JS.JArr items => "{" +:+ JS.join "," (map array_element items) +:+ "}"
  | JS.JObj _ => escapeElement (JS.stringify j)
  end.

(** [prepareValue]: [undefined] and [null] are sent as NULL, a string as
    itself, a number or a boolean through [toString], an array as an array
    literal and any other object as its JSON text. *)
Definition prepareValue (v : JS.value) : option string :=
  match v with
  | None => None
  | Some JS.JNull => None
  | Some (JS.JBool true) => Some "true"
  | Some (JS.JBool false) => Some "false"
  | Some (JS.JNum n) => Some (JS.number_to_string n)
  | Some (JS.JStr s) => Some s
  | Some (JS.JArr items) => Some (array_element (JS.JArr items))
  | Some (JS.JObj members) => Some (JS.stringify (JS.JObj members))
  end.

(** *** Column input functions *)

Fixpoint has_nul (s : string) : bool :=
  match s with
  | EmptyString => false
  | String c rest => orb (Ascii.eqb c (ascii_of_N 0)) (has_nul rest)
  end.

(** A character parameter (TEXT, and VARCHAR before its width is looked
    at): any string but one that holds the NUL character, which is refused
    when the parameter is bound.  (Apart from that a string of the model is
    a text that is valid in the server encoding.) *)
Definition text_in (s : string) : result string :=
  if has_nul s then raise character_not_in_repertoire else ok s.

Fixpoint all_spaces (s : string) : bool :=
  match s with
  | EmptyString => true
  | String c rest => andb (Ascii.eqb c " ") (all_spaces rest)
  end.

(** VARCHAR(n) on assignment: a longer string is an error unless the excess
    is spaces only, which is cut off. *)
Definition varchar_in (n : nat) (s : string) : result string :=
  bind (text_in s) (fun s =>
    if (String.length s <=? n)%nat then ok s
    else if all_spaces (String.substring n (String.length s - n) s)
         then ok (String.substring 0 n s)
         else raise string_data_right_truncation).

Definition is_space (c : ascii) : bool :=
  let n := N_of_ascii c in orb (n =? 32)%N (andb (9 <=? n)%N (n <=? 13)%N).

Fixpoint skip_spaces (s : string) : string :=
  match s with
  | String c rest => if is_space c then skip_spaces rest else s
  | EmptyString => s
  end.

Definition digit_value (c : ascii) : option Z :=
  let n := N_of_ascii c in
  if andb (48 <=? n)%N (n <=? 57)%N then Some (Z.of_N n - 48) else None.

(** The digits of a numeral, then optional trailing white space. *)
Fixpoint digits (seen : bool) (acc : Z) (s : string) : option Z :=
  match s with
  | EmptyString => if seen then Some acc else None
  | String c rest =>
      match digit_value c with
      | Some d => digits true (10 * acc + d) rest
      | None =>
          if andb seen (String.eqb (skip_spaces s) "") then Some acc else None
      end
  end.

(** INTEGER ([int4in]) on decimal numerals: white space, a sign, digits,
    white space; the value within 32 bits.  (The NUL character is none of
    these: a parameter that holds one is refused here too.) *)
Definition int4in (s : string) : result Z :=
  let magnitude negative rest :=
    bind (from_option invalid_text_representation (digits false 0 rest)) (fun m =>
      let v := if negative : bool then - m else m in
      if andb (-2147483648 <=? v) (v <=? 2147483647) then ok v
      else raise numeric_value_out_of_range) in
  match skip_spaces s with
  | String "-" rest => magnitude true rest
  | String "+" rest => magnitude false rest
  | rest => magnitude false rest
  end.

(** What the model takes from the server: the input functions of DATE, TIME
    and JSONB (a value of these types is kept as its canonical text), and the
    collation that [ORDER BY] on a character column follows. *)
Class Engine : Type := {
  date_in : string -> option string;
  time_in : string -> option string;
  jsonb_in : string -> option string;
  collate_le : string -> string -> bool;
}.

(** A parameter of a type whose input function the engine gives: the text
    is checked as that of any parameter is when it is bound, then read. *)
Definition engine_in (f : string -> option string) (e : sqlstate) (s : string)
  : result string :=
  bind (text_in s) (fun s => from_option e (f s)).

(** A collation orders the strings: any two compare, and the comparison is
    transitive. *)
Class Collation (engine : Engine) : Prop := {
  collate_le_total : forall a b, collate_le a b = true \/ collate_le b a = true;
  collate_le_trans : forall a b c,
    collate_le a b = true -> collate_le b c = true -> collate_le a c = true;
}.

End Pg.

Notation "x <- r ;; k" := (Pg.bind r (fun x => k))
  (at level 100, r at next level, right associativity).

(** ** The libraries behind the authentication gateway *)

Module Jwt.

(** The payload login signs: [{ userId: user.id, email: user.email }]. *)
Record payload : Type := { userId : Z; email : string }.

(** What [jwt.verify] hands to its callback on success: the payload with
    the issue and expiry times (seconds) that [jwt.sign] added. *)
Record decoded : Type := { claims : payload; iat : Z; exp : Z }.

Inductive error : Type :=
| jwt_malformed
| invalid_signature
| TokenExpiredError.

Fixpoint has_space (s : string) : bool :=
  match s with
  | EmptyString => false
  | String c rest => orb (Ascii.eqb c " ") (has_space rest)
  end.

(** A compact serialization: not empty, no space inside. *)
Definition compact (token : string) : Prop :=
  token <> "" /\ has_space token = false.

End Jwt.

(** [bcryptjs] and [jsonwebtoken]: [bcrypt.hash(s, rounds)],
    [bcrypt.compare(s, hash)], [jwt.sign(payload, secret, { expiresIn })] at
    clock [t] and [jwt.verify(token, secret)] at clock [now], times in
    seconds. *)
Class Crypto : Type := {
  bcrypt_hash : string -> Z -> string;
  bcrypt_compare : string -> string -> bool;
  jwt_sign : Jwt.payload -> string -> Z -> Z -> string;
  jwt_verify : string -> string -> Z -> Jwt.error + Jwt.decoded;
}.

(** The contracts of the two libraries, as far as the server relies on them:
    a password compares equal to its own hash; a token signed at [t] for
    [life] seconds verifies under the same secret to the signed payload while
    the clock is before [t + life], and is expired from then on; a token is a
    compact serialization. *)
Class CryptoContract (crypto : Crypto) : Prop := {
  bcrypt_compare_hash : forall s rounds, bcrypt_compare s (bcrypt_hash s rounds) = true;
  jwt_verify_sign : forall p secret t life now,
    jwt_verify (jwt_sign p secret t life) secret now =
    if now <? t + life
    then inr {| Jwt.claims := p; Jwt.iat := t; Jwt.exp := t + life |}
    else inl Jwt.TokenExpiredError;
  jwt_sign_compact : forall p secret t life, Jwt.compact (jwt_sign p secret t life);
}.

(** ** The schema ([initDatabase]) *)

Module Users.
(** [users]: [email] is UNIQUE NOT NULL, [password] NOT NULL. *)
Record row : Type := {
  id : Z;
  email : string;
  password : string;
  role : option string;
  fcm_token : option string;
  created_at : Z;
}.
End Users.

Module Services.
(** [services]: [price] is DECIMAL(10,2), kept in hundredths. *)
Record row : Type := {
  id : Z;
  name : string;
  duration : Z;
  price : Z;
  description : option string;
  active : option bool;
  created_at : Z;
}.
End Services.

Module Appointments.
(** [appointments], the columns after the primary key [id].  The two
    timestamps are never NULL: the insert takes their defaults and the
    update sets [updated_at]. *)
Record row : Type := {
  client_name : string;
  client_phone : option string;
  client_email : option string;
  pet_name : string;
  pet_breed : option string;
  service_id : option Z;
  appointment_date : string;
  appointment_time : string;
  notes : option string;
  status : option string;
  rejection_reason : option string;
  proposed_changes : option string;
  created_at : Z;
  updated_at : Z;
}.

(** A row as [RETURNING *] gives it. *)
Record returned : Type := { id : Z; columns : row }.
End Appointments.

(** The statements the handlers send through [pool.query]. *)
Inductive statement : Type :=
| SelectUserByEmail
| SelectActiveServices
| InsertAppointment
| UpdateAppointmentStatus.

(** The store: the three tables the handlers touch, the sequence behind
    [appointments.id], and the statements received so far.  [appointments]
    is keyed by its primary key. *)
Record db : Type := {
  users : list Users.row;
  services : list Services.row;
  appointments : gmap Z Appointments.row;
  appointments_id_seq : Z;
  received : list statement;
}.

Definition receive (q : statement) (st : db) : db :=
  {| users := users st; services := services st;
     appointments := appointments st;
     appointments_id_seq := appointments_id_seq st;
     received := received st ++ [q] |}.

(** [nextval('appointments_id_seq')].  The sequence of a SERIAL column is
    an INTEGER one: past 2147483647 it gives no value and stays where it
    is. *)
Definition nextval (st : db) : Pg.result Z * db :=
  if appointments_id_seq st <=? 2147483647 then
    (inr (appointments_id_seq st),
     {| users := users st; services := services st;
        appointments := appointments st;
        appointments_id_seq := appointments_id_seq st + 1;
        received := received st |})
  else (inl Pg.sequence_generator_limit_exceeded, st).

Definition store_appointment (id : Z) (r : Appointments.row) (st : db) : db :=
  {| users := users st; services := services st;
     appointments := <[id := r]> (appointments st);
     appointments_id_seq := appointments_id_seq st;
     received := received st |}.

(** A statement run against the store. *)
Definition query (A : Type) : Type := db -> Pg.result A * db.

(** ** The requests *)

Module Http.

Inductive body : Type :=
| Error (error : string)
| LoggedIn (message token : string) (id : Z) (email : string) (role : option string)
| ServiceList (rows : list Services.row)
| Created (message : string) (appointment : option Appointments.returned)
| Appointment (row : Appointments.returned).

(** [res.status(code).json(body)]; [res.json(body)] alone answers 200. *)
Record response : Type := { status : Z; json : body }.

(** The error taxonomy, by status code. *)
Inductive outcome : Type :=
| Success
| BadRequest
| Unauthorized
| Forbidden
| NotFound
| InternalError.

Definition outcome_of (r : response) : outcome :=
  if status r =? 400 then BadRequest
  else if status r =? 401 then Unauthorized
  else if status r =? 403 then Forbidden
  else if status r =? 404 then NotFound
  else if status r =? 500 then InternalError
  else Success.

End Http.

(** Request bodies, each property as [req.body] has it. *)
Module Body.

(** POST /api/auth/login *)
Record credentials : Type := { email : JS.value; password : JS.value }.

(** POST /api/appointments *)
Record booking : Type := {
  clientName : JS.value;
  clientPhone : JS.value;
  clientEmail : JS.value;
  petName : JS.value;
  petBreed : JS.value;
  serviceId : JS.value;
  appointmentDate : JS.value;
  appointmentTime : JS.value;
  notes : JS.value;
}.

(** PUT /api/appointments/:id/status *)
Record transition : Type := {
  status : JS.value;
  rejectionReason : JS.value;
  proposedChanges : JS.value;
}.

End Body.

(** [process.env], as far as the handlers read it. *)
Record environment : Type := { env_JWT_SECRET : option string }.

(** [process.env.JWT_SECRET || 'fallback-secret-for-development']. *)
Definition JWT_SECRET (env : environment) : string :=
  match env_JWT_SECRET env with
  | Some secret => if String.eqb secret "" then "fallback-secret-for-development" else secret
  | None => "fallback-secret-for-development"
  end.

(** [expiresIn: '24h'], in the seconds [jsonwebtoken] counts in. *)
Definition expiresIn : Z := 24 * 60 * 60.

(** The outcome of a middleware: it answers, or calls [next()] with
    [req.user] set. *)
Inductive middleware : Type :=
| Next (user : Jwt.decoded)
| Respond (r : Http.response).

Section Server.

Context {crypto : Crypto} {engine : Pg.Engine}.
Variable env : environment.

(** *** Statements *)

(** [SELECT * FROM users WHERE email = $1] *)
Definition select_user_by_email (p1 : option string) : query (list Users.row) :=
  fun st =>
    let st := receive SelectUserByEmail st in
    match Pg.nullable Pg.text_in p1 with
    | inl e => (inl e, st)
    | inr None => (inr [], st)
    | inr (Some e) => (inr (filter (fun u => Users.email u = e) (users st)), st)
    end.

Definition name_le (a b : Services.row) : Prop :=
  Pg.collate_le (Services.name a) (Services.name b) = true.

#[global] Instance name_le_dec : RelDecision name_le.
Proof. intros a b. unfold name_le. apply _. Defined.

(** [SELECT * FROM services WHERE active = true ORDER BY name] *)
Definition select_active_services : query (list Services.row) :=
  fun st =>
    let st := receive SelectActiveServices st in
    (inr (merge_sort name_le
            (filter (fun s => Services.active s = Some true) (services st))), st).

(** [service_id INTEGER REFERENCES services(id)]: NULL, or the key of a
    service. *)
Definition references_service (service_id : option Z) (st : db) : bool :=
  match service_id with
  | None => true
  | Some n => existsb (fun s => Services.id s =? n) (services st)
  end.

(** The nine parameters of the insert, read into the types of their
    columns. *)
Definition read_booking (p1 p2 p3 p4 p5 p6 p7 p8 p9 : option string)
  : Pg.result (option string * option string * option string * option string
               * option string * option Z * option string * option string
               * option string) :=
  client_name <- Pg.nullable (Pg.varchar_in 255) p1 ;;
  client_phone <- Pg.nullable (Pg.varchar_in 20) p2 ;;
  client_email <- Pg.nullable (Pg.varchar_in 255) p3 ;;
  pet_name <- Pg.nullable (Pg.varchar_in 255) p4 ;;
  pet_breed <- Pg.nullable (Pg.varchar_in 255) p5 ;;
  service_id <- Pg.nullable Pg.int4in p6 ;;
  appointment_date <-
    Pg.nullable (Pg.engine_in Pg.date_in Pg.invalid_datetime_format) p7 ;;
  appointment_time <-
    Pg.nullable (Pg.engine_in Pg.time_in Pg.invalid_datetime_format) p8 ;;
  notes <- Pg.nullable Pg.text_in p9 ;;
  Pg.ok (client_name, client_phone, client_email, pet_name, pet_breed,
         service_id, appointment_date, appointment_time, notes).

(** [INSERT INTO appointments (client_name, client_phone, client_email,
    pet_name, pet_breed, service_id, appointment_date, appointment_time,
    notes) VALUES ($1, ..., $9) RETURNING *]

    The parameters are read into the column types first.  The row then takes
    its key from the sequence (an exhausted sequence ends the statement) and
    the column defaults ([status] 'pending',
    both timestamps CURRENT_TIMESTAMP, the rest NULL) and is checked against
    the NOT NULL columns and the foreign key; a row that fails there has
    used up its key. *)
Definition insert_appointment (now : Z) (p1 p2 p3 p4 p5 p6 p7 p8 p9 : option string)
  : query (list Appointments.returned) :=
  fun st =>
    let st := receive InsertAppointment st in
    match read_booking p1 p2 p3 p4 p5 p6 p7 p8 p9 with
    | inl e => (inl e, st)
    | inr (client_name, client_phone, client_email, pet_name, pet_breed,
           service_id, appointment_date, appointment_time, notes) =>
        match nextval st with
        | (inl e, st) => (inl e, st)
        | (inr id, st) =>
            match client_name, pet_name, appointment_date, appointment_time with
            | Some client_name, Some pet_name, Some appointment_date,
              Some appointment_time =>
                if references_service service_id st then
                  let r :=
                    {| Appointments.client_name := client_name;
                       Appointments.client_phone := client_phone;
                       Appointments.client_email := client_email;
                       Appointments.pet_name := pet_name;
                       Appointments.pet_breed := pet_breed;
                       Appointments.service_id := service_id;
                       Appointments.appointment_date := appointment_date;
                       Appointments.appointment_time := appointment_time;
                       Appointments.notes := notes;
                       Appointments.status := Some "pending";
                       Appointments.rejection_reason := None;
                       Appointments.proposed_changes := None;
                       Appointments.created_at := now;
                       Appointments.updated_at := now |} in
                  (inr [{| Appointments.id := id; Appointments.columns := r |}],
                   store_appointment id r st)
                else (inl Pg.foreign_key_violation, st)
            | _, _, _, _ => (inl Pg.not_null_violation, st)
            end
        end
    end.

(** The [SET] list of the status update, applied to one row. *)
Definition set_status (status rejection_reason proposed_changes : option string) (now : Z)
    (r : Appointments.row) : Appointments.row :=
  {| Appointments.client_name := Appointments.client_name r;
     Appointments.client_phone := Appointments.client_phone r;
     Appointments.client_email := Appointments.client_email r;
     Appointments.pet_name := Appointments.pet_name r;
     Appointments.pet_breed := Appointments.pet_breed r;
     Appointments.service_id := Appointments.service_id r;
     Appointments.appointment_date := Appointments.appointment_date r;
     Appointments.appointment_time := Appointments.appointment_time r;
     Appointments.notes := Appointments.notes r;
     Appointments.status := status;
     Appointments.rejection_reason := rejection_reason;
     Appointments.proposed_changes := proposed_changes;
     Appointments.created_at := Appointments.created_at r;
     Appointments.updated_at := now |}.

(** A JSONB parameter. *)
Definition read_jsonb (p : option string) : Pg.result (option string) :=
  Pg.nullable (Pg.engine_in Pg.jsonb_in Pg.invalid_text_representation) p.

(** The four parameters of the status update, read into the types of
    [status], [rejection_reason], [proposed_changes] and [id]. *)
Definition read_transition (p1 p2 p3 p4 : option string)
  : Pg.result (option string * option string * option string * option Z) :=
  status <- Pg.nullable (Pg.varchar_in 50) p1 ;;
  rejection_reason <- Pg.nullable Pg.text_in p2 ;;
  proposed_changes <- read_jsonb p3 ;;
  id <- Pg.nullable Pg.int4in p4 ;;
  Pg.ok (status, rejection_reason, proposed_changes, id).

(** [UPDATE appointments SET status = $1, rejection_reason = $2,
    proposed_changes = $3, updated_at = CURRENT_TIMESTAMP WHERE id = $4
    RETURNING *] *)
Definition update_appointment_status (now : Z) (p1 p2 p3 p4 : option string)
  : query (list Appointments.returned) :=
  fun st =>
    let st := receive UpdateAppointmentStatus st in
    match read_transition p1 p2 p3 p4 with
    | inl e => (inl e, st)
    | inr (_, _, _, None) => (inr [], st)
    | inr (status, rejection_reason, proposed_changes, Some id) =>
        match appointments st !! id with
        | None => (inr [], st)
        | Some r =>
            let r := set_status status rejection_reason proposed_changes now r in
            (inr [{| Appointments.id := id; Appointments.columns := r |}],
             store_appointment id r st)
        end
    end.

(** *** Handlers *)

Definition respond (code : Z) (b : Http.body) : Http.response :=
  {| Http.status := code; Http.json := b |}.

(** A route handler: it answers and leaves the store in a new state. *)
Definition handler : Type := db -> Http.response * db.

(** [authHeader && authHeader.split(' ')[1]]: a missing or empty header
    stands for itself, otherwise the second component of the split. *)
Definition header_token (authHeader : option string) : option string :=
  match authHeader with
  | None => None
  | Some header =>
      if String.eqb header "" then Some header else JS.split " " header !! 1%nat
  end.

(** [!token] *)
Definition no_token (token : option string) : bool :=
  match token with
  | None => true
  | Some t => String.eqb t ""
  end.

(** [authenticateToken]: [authHeader] is [req.headers['authorization']],
    [now] the clock [jwt.verify] reads.  Past [!token] the token is a
    non-empty string. *)
Definition authenticateToken (now : Z) (authHeader : option string) : middleware :=
  let token := header_token authHeader in
  if no_token token then Respond (respond 401 (Http.Error "Token di accesso richiesto"))
  else
    match jwt_verify (default "" token) (JWT_SECRET env) now with
    | inl err => Respond (respond 403 (Http.Error "Token non valido"))
    | inr user => Next user
    end.

(** A route behind the gate. *)
Definition authenticated (now : Z) (authHeader : option string) (h : handler) : handler :=
  fun st =>
    match authenticateToken now authHeader with
    | Respond r => (r, st)
    | Next _ => h st
    end.

(** POST /api/auth/login.  [bcrypt.compare] rejects with "Illegal
    arguments" when the password is not a string, which the [catch] turns
    into the 500 answer. *)
Definition login (now : Z) (body : Body.credentials) : handler :=
  fun st =>
    let email := Body.email body in
    let password := Body.password body in
    if orb (negb (JS.truthy email)) (negb (JS.truthy password)) then
      (respond 400 (Http.Error "Email e password richiesti"), st)
    else
      match select_user_by_email (Pg.prepareValue email) st with
      | (inl _, st) => (respond 500 (Http.Error "Errore durante il login"), st)
      | (inr [], st) => (respond 401 (Http.Error "Credenziali non valide"), st)
      | (inr (user :: _), st) =>
          match password with
          | Some (JS.JStr password) =>
              if bcrypt_compare password (Users.password user) then
                let token :=
                  jwt_sign {| Jwt.userId := Users.id user; Jwt.email := Users.email user |}
                           (JWT_SECRET env) now expiresIn in
                (respond 200
                   (Http.LoggedIn "Login effettuato con successo" token
                      (Users.id user) (Users.email user) (Users.role user)), st)
              else (respond 401 (Http.Error "Credenziali non valide"), st)
          | _ => (respond 500 (Http.Error "Errore durante il login"), st)
          end
      end.

(** GET /api/services *)
Definition listServices : handler :=
  fun st =>
    match select_active_services st with
    | (inl _, st) => (respond 500 (Http.Error "Errore recupero servizi"), st)
    | (inr rows, st) => (respond 200 (Http.ServiceList rows), st)
    end.

(** The guard of POST /api/appointments. *)
Definition required_missing (body : Body.booking) : bool :=
  orb (negb (JS.truthy (Body.clientName body)))
  (orb (negb (JS.truthy (Body.petName body)))
  (orb (negb (JS.truthy (Body.serviceId body)))
  (orb (negb (JS.truthy (Body.appointmentDate body)))
       (negb (JS.truthy (Body.appointmentTime body)))))).

(** POST /api/appointments.  [now] is CURRENT_TIMESTAMP of the insert. *)
Definition createAppointment (now : Z) (body : Body.booking) : handler :=
  fun st =>
    if required_missing body then
      (respond 400 (Http.Error "Campi obbligatori mancanti"), st)
    else
      match insert_appointment now
              (Pg.prepareValue (Body.clientName body))
              (Pg.prepareValue (Body.clientPhone body))
              (Pg.prepareValue (Body.clientEmail body))
              (Pg.prepareValue (Body.petName body))
              (Pg.prepareValue (Body.petBreed body))
              (Pg.prepareValue (Body.serviceId body))
              (Pg.prepareValue (Body.appointmentDate body))
              (Pg.prepareValue (Body.appointmentTime body))
              (Pg.prepareValue (Body.notes body)) st with
      | (inl _, st) => (respond 500 (Http.Error "Errore creazione appuntamento"), st)
      | (inr rows, st) =>
          (respond 200 (Http.Created "Appuntamento creato con successo" (rows !! 0%nat)), st)
      end.

(** What the store reads from the body of a booking request. *)
Definition read_request (body : Body.booking) :=
  read_booking
    (Pg.prepareValue (Body.clientName body)) (Pg.prepareValue (Body.clientPhone body))
    (Pg.prepareValue (Body.clientEmail body)) (Pg.prepareValue (Body.petName body))
    (Pg.prepareValue (Body.petBreed body)) (Pg.prepareValue (Body.serviceId body))
    (Pg.prepareValue (Body.appointmentDate body))
    (Pg.prepareValue (Body.appointmentTime body)) (Pg.prepareValue (Body.notes body)).

(** The handler of PUT /api/appointments/:id/status, past the gate: [id] is
    [req.params.id], [now] is CURRENT_TIMESTAMP of the update. *)
Definition updateStatus (now : Z) (id : string) (body : Body.transition) : handler :=
  fun st =>
    match update_appointment_status now
            (Pg.prepareValue (Body.status body))
            (Pg.prepareValue (Body.rejectionReason body))
            (Pg.prepareValue (JS.JStr <$> JS.JSON_stringify (Body.proposedChanges body)))
            (Some id) st with
    | (inl _, st) => (respond 500 (Http.Error "Errore aggiornamento appuntamento"), st)
    | (inr [], st) => (respond 404 (Http.Error "Appuntamento non trovato"), st)
    | (inr (row :: _), st) => (respond 200 (Http.Appointment row), st)
    end.

(** PUT /api/appointments/:id/status *)
Definition put_appointment_status (now_jwt now : Z) (authHeader : option string)
    (id : string) (body : Body.transition) : handler :=
  authenticated now_jwt authHeader (updateStatus now id body).

End Server.

(** The answers of the error paths, by name. *)

Definition token_required : Http.response :=
  respond 401 (Http.Error "Token di accesso richiesto").

Definition token_invalid : Http.response :=
  respond 403 (Http.Error "Token non valido").

Definition invalid_credentials : Http.response :=
  respond 401 (Http.Error "Credenziali non valide").

Definition missing_fields : Http.response :=
  respond 400 (Http.Error "Campi obbligatori mancanti").

Definition not_found : Http.response :=
  respond 404 (Http.Error "Appuntamento non trovato").

Definition update_failed : Http.response :=
  respond 500 (Http.Error "Errore aggiornamento appuntamento").

(** The token an answer carries. *)
Definition issued_token (r : Http.response) : option string :=
  match Http.json r with
  | Http.LoggedIn _ token _ _ _ => Some token
  | _ => None
  end.

(** ** Bootstrap *)

Section Bootstrap.

Context {crypto : Crypto}.

Definition seeded_service (id : Z) (name : string) (duration price : Z)
    (description : string) (now : Z) : Services.row :=
  {| Services.id := id; Services.name := name; Services.duration := duration;
     Services.price := price; Services.description := Some description;
     Services.active := Some true; Services.created_at := now |}.

(** [initDatabase]: when the [users] table is missing ([None]) the tables
    are created and seeded with the five services and the administrator;
    an initialized store is left as it is. *)
Definition initDatabase (now : Z) (store : option db) : db :=
  match store with
  | Some st => st
  | None =>
      let hashedPassword := bcrypt_hash "admin123" 10 in
      {| users :=
           [{| Users.id := 1; Users.email := "admin@toelettatura.com";
               Users.password := hashedPassword; Users.role := Some "admin";
               Users.fcm_token := None; Users.created_at := now |}];
         services :=
           [seeded_service 1 "Bagno e Spazzolatura" 60 2500
              "Bagno completo con shampoo specifico e spazzolatura" now;
            seeded_service 2 "Taglio Completo" 90 4000
              "Taglio completo del pelo con styling" now;
            seeded_service 3 "Taglio Unghie" 30 1500
              "Taglio professionale delle unghie" now;
            seeded_service 4 "Pulizia Orecchie" 20 1000
              "Pulizia accurata delle orecchie" now;
            seeded_service 5 "Pacchetto Completo" 120 6000
              "Tutti i servizi inclusi" now];
         appointments := ∅;
         appointments_id_seq := 1;
         received := [] |}
  end.

End Bootstrap.

(** ** Invariants of the store *)

(** The keys in [appointments] came from the sequence, no two users share
    an email (the UNIQUE constraint), and a stored email is a text the store
    takes. *)
Record consistent (st : db) : Prop := {
  keys_issued : forall id r, appointments st !! id = Some r -> id < appointments_id_seq st;
  emails_unique : NoDup (Users.email <$> users st);
  emails_stored : forall u, u ∈ users st -> Pg.has_nul (Users.email u) = false;
}.

Section Reachable.

Context {crypto : Crypto} {engine : Pg.Engine}.
Variable env : environment.

(** The requests that reach the store. *)
Inductive request : Type :=
| PostLogin (now : Z) (body : Body.credentials)
| GetServices
| PostAppointment (now : Z) (body : Body.booking)
| PutAppointmentStatus (now_jwt now : Z) (authHeader : option string) (id : string)
    (body : Body.transition).

Definition serve (r : request) : handler :=
  match r with
  | PostLogin now body => login env now body
  | GetServices => listServices
  | PostAppointment now body => createAppointment now body
  | PutAppointmentStatus now_jwt now authHeader id body =>
      put_appointment_status env now_jwt now authHeader id body
  end.

(** The stores the server can be in: the seeded one, and the ones the
    handlers leave. *)
Inductive reachable : db -> Prop :=
| reachable_seeded (now : Z) : reachable (initDatabase now None)
| reachable_served (r : request) (st : db) : reachable st -> reachable (snd (serve r st)).

(** [CURRENT_TIMESTAMP] as a request's statement reads it: the requests
    that stamp a row do so at time [t]. *)
Definition stamps_at (t : Z) (r : request) : Prop :=
  match r with
  | PostAppointment now _ => now = t
  | PutAppointmentStatus _ now _ _ _ => now = t
  | PostLogin _ _ => True
  | GetServices => True
  end.

(** The stores the server reaches while the clock of the store runs
    forward, with the time of the last request. *)
Inductive timed : Z -> db -> Prop :=
| timed_seeded (now : Z) : timed now (initDatabase now None)
| timed_served (t t' : Z) (r : request) (st : db) :
    timed t st -> t <= t' -> stamps_at t' r -> timed t' (snd (serve r st)).

End Reachable.

(** No row carries a time of update later than [t]. *)
Definition stamped (t : Z) (st : db) : Prop :=
  forall id r, appointments st !! id = Some r -> Appointments.updated_at r <= t.

(** The columns the status update leaves alone. *)
Definition same_booking (a b : Appointments.row) : Prop :=
  Appointments.client_name a = Appointments.client_name b
  /\ Appointments.client_phone a = Appointments.client_phone b
  /\ Appointments.client_email a = Appointments.client_email b
  /\ Appointments.pet_name a = Appointments.pet_name b
  /\ Appointments.pet_breed a = Appointments.pet_breed b
  /\ Appointments.service_id a = Appointments.service_id b
  /\ Appointments.appointment_date a = Appointments.appointment_date b
  /\ Appointments.appointment_time a = Appointments.appointment_time b
  /\ Appointments.notes a = Appointments.notes b
  /\ Appointments.created_at a = Appointments.created_at b.

(** The tables other than [appointments], and the sequence. *)
Definition same_catalog (a b : db) : Prop :=
  users a = users b /\ services a = services b
  /\ appointments_id_seq a = appointments_id_seq b.

(** ** The listing of appointments *)

Module Listing.

(** A row of the listing: [a.*] and, from the joined service, [name] as
    [service_name], [duration] and [price]; the three are NULL where no
    service matches. *)
Record row : Type := {
  appointment : Appointments.returned;
  service_name : option string;
  duration : option Z;
  price : option Z;
}.

Definition created_at (r : row) : Z :=
  Appointments.created_at (Appointments.columns (appointment r)).

End Listing.

(** The row of an appointment that no service matches. *)
Definition unmatched (a : Z * Appointments.row) : Listing.row :=
  {| Listing.appointment := {| Appointments.id := a.1; Appointments.columns := a.2 |};
     Listing.service_name := None; Listing.duration := None; Listing.price := None |}.

(** The row of an appointment and a service that matches it. *)
Definition matched (a : Z * Appointments.row) (s : Services.row) : Listing.row :=
  {| Listing.appointment := {| Appointments.id := a.1; Appointments.columns := a.2 |};
     Listing.service_name := Some (Services.name s);
     Listing.duration := Some (Services.duration s);
     Listing.price := Some (Services.price s) |}.

(** [appointments a LEFT JOIN services s ON a.service_id = s.id], for one
    appointment: a row for each service with that key, and one row all the
    same when there is none (a NULL [service_id] equals no key). *)
Definition left_join (catalog : list Services.row) (a : Z * Appointments.row)
  : list Listing.row :=
  match filter (fun s => Some (Services.id s) = Appointments.service_id a.2) catalog with
  | [] => [unmatched a]
  | s :: others => matched a <$> s :: others
  end.

(** [ORDER BY a.created_at DESC] *)
Definition newer_first (a b : Listing.row) : Prop :=
  Listing.created_at b <= Listing.created_at a.

#[global] Instance newer_first_dec : RelDecision newer_first.
Proof. intros a b. unfold newer_first. apply _. Defined.

(** [SELECT a.*, s.name as service_name, s.duration, s.price FROM
    appointments a LEFT JOIN services s ON a.service_id = s.id ORDER BY
    a.created_at DESC].  The statement has no parameter and changes no table:
    it is a function of the store. *)
Definition select_appointments (st : db) : list Listing.row :=
  merge_sort newer_first (map_to_list (appointments st) ≫= left_join (services st)).

Section ListingRoute.

Context {crypto : Crypto}.
Variable env : environment.

(** GET /api/appointments: the answer of the gate, or 200 with the rows. *)
Definition listAppointments (now : Z) (authHeader : option string) (st : db)
  : Http.response + list Listing.row :=
  match authenticateToken env now authHeader with
  | Respond r => inl r
  | Next _ => inr (select_appointments st)
  end.

End ListingRoute.

(** ** What the columns hold *)

(** The key of each service is its own (PRIMARY KEY). *)
Definition catalog_keyed (st : db) : Prop := NoDup (Services.id <$> services st).

(** A row within the widths of its VARCHAR columns and with a service
    behind its reference. *)
Record within_columns (catalog : list Services.row) (a : Appointments.row) : Prop := {
  client_name_width : (String.length (Appointments.client_name a) <= 255)%nat;
  client_phone_width :
    forall s, Appointments.client_phone a = Some s -> (String.length s <= 20)%nat;
  client_email_width :
    forall s, Appointments.client_email a = Some s -> (String.length s <= 255)%nat;
  pet_name_width : (String.length (Appointments.pet_name a) <= 255)%nat;
  pet_breed_width :
    forall s, Appointments.pet_breed a = Some s -> (String.length s <= 255)%nat;
  status_width :
    forall s, Appointments.status a = Some s -> (String.length s <= 50)%nat;
  service_exists :
    exists s, s ∈ catalog /\ Appointments.service_id a = Some (Services.id s);
}.

Definition well_typed (st : db) : Prop :=
  forall id a, appointments st !! id = Some a -> within_columns (services st) a.

(** ** An instance of the interfaces

    A small engine and a small token format that meet the contracts, so that
    the handlers can be run on concrete requests. *)

Module Sample.

Definition digit (c : ascii) : bool :=
  match Pg.digit_value c with Some _ => true | None => false end.

(** Dates as YYYY-MM-DD. *)
Definition date_in (s : string) : option string :=
  match s with
  | String y1 (String y2 (String y3 (String y4 (String "-"
      (String m1 (String m2 (String "-" (String d1 (String d2 EmptyString))))))))) =>
      if forallb digit [y1; y2; y3; y4; m1; m2; d1; d2] then Some s else None
  | _ => None
  end.

(** Times as HH:MM, kept with their seconds. *)
Definition time_in (s : string) : option string :=
  match s with
  | String h1 (String h2 (String ":" (String m1 (String m2 EmptyString)))) =>
      if forallb digit [h1; h2; m1; m2] then Some (s +:+ ":00") else None
  | _ => None
  end.

Definition engine : Pg.Engine := {|
  Pg.date_in := date_in;
  Pg.time_in := time_in;
  Pg.jsonb_in := Some;
  Pg.collate_le := String.leb;
|}.

(** Numbers, written bit by bit and closed by a dot, in front of [rest]. *)
Fixpoint write_pos (p : positive) (rest : string) : string :=
  match p with
  | xH => String "." rest
  | xO p => String "0" (write_pos p rest)
  | xI p => String "1" (write_pos p rest)
  end.

Fixpoint read_pos (s : string) : option (positive * string) :=
  match s with
  | String "." rest => Some (xH, rest)
  | String "0" s => match read_pos s with Some (p, rest) => Some (xO p, rest) | None => None end
  | String "1" s => match read_pos s with Some (p, rest) => Some (xI p, rest) | None => None end
  | _ => None
  end.

Definition write_Z (z : Z) (rest : string) : string :=
  match z with
  | Z0 => String "z" rest
  | Zpos p => String "p" (write_pos p rest)
  | Zneg p => String "n" (write_pos p rest)
  end.

Definition read_Z (s : string) : option (Z * string) :=
  match s with
  | String "z" rest => Some (Z0, rest)
  | String "p" s => match read_pos s with Some (p, rest) => Some (Zpos p, rest) | None => None end
  | String "n" s => match read_pos s with Some (p, rest) => Some (Zneg p, rest) | None => None end
  | _ => None
  end.

(** The first [n] characters and what follows them. *)
Fixpoint cut (n : nat) (s : string) : option (string * string) :=
  match n, s with
  | O, _ => Some (EmptyString, s)
  | S n, String c s =>
      match cut n s with Some (a, b) => Some (String c a, b) | None => None end
  | S _, EmptyString => None
  end.

Definition letter (n : N) : ascii := ascii_of_N (97 + n).

(** Two letters per character, so that no space is left. *)
Fixpoint armor (s : string) : string :=
  match s with
  | EmptyString => EmptyString
  | String c s =>
      let n := N_of_ascii c in
      String (letter (n / 16)) (String (letter (n mod 16)) (armor s))
  end.

Definition unletter (c : ascii) : option N :=
  let n := N_of_ascii c in
  if andb (97 <=? n)%N (n <? 113)%N then Some (n - 97)%N else None.

Fixpoint unarmor (s : string) : option string :=
  match s with
  | EmptyString => Some EmptyString
  | String a (String b s) =>
      match unletter a, unletter b, unarmor s with
      | Some hi, Some lo, Some s => Some (String (ascii_of_N (16 * hi + lo)) s)
      | _, _, _ => None
      end
  | String _ EmptyString => None
  end.

Definition jwt_sign (p : Jwt.payload) (secret : string) (t life : Z) : string :=
  String "J"
    (armor (write_Z (Jwt.userId p) (write_Z t (write_Z (t + life)
       (write_Z (Z.of_nat (String.length secret)) (secret +:+ Jwt.email p)))))).

Definition jwt_verify (token secret : string) (now : Z) : Jwt.error + Jwt.decoded :=
  let parsed :=
    match token with
    | String "J" body =>
        text ← unarmor body;
        '(userId, text) ← read_Z text;
        '(iat, text) ← read_Z text;
        '(exp, text) ← read_Z text;
        '(n, text) ← read_Z text;
        '(key, email) ← cut (Z.to_nat n) text;
        Some (key, {| Jwt.claims := {| Jwt.userId := userId; Jwt.email := email |};
                      Jwt.iat := iat; Jwt.exp := exp |})
    | _ => None
    end in
  match parsed with
  | None => inl Jwt.jwt_malformed
  | Some (key, d) =>
      if negb (String.eqb key secret) then inl Jwt.invalid_signature
      else if now <? Jwt.exp d then inr d
      else inl Jwt.TokenExpiredError
  end.

Definition bcrypt_hash (s : string) (rounds : Z) : string := "$2a$" +:+ s.

Definition bcrypt_compare (s hash : string) : bool := String.eqb hash ("$2a$" +:+ s).

Definition crypto : Crypto := Build_Crypto bcrypt_hash bcrypt_compare jwt_sign jwt_verify.

Definition env : environment := {| env_JWT_SECRET := None |}.

End Sample.

(** ** Requests to run

    Stores and requests for the handlers on the sample engine and token
    format, from the seeded store on. *)

Module Run.

Definition seeded : db := initDatabase (crypto := Sample.crypto) 1000 None.

Definition admin : Users.row :=
  {| Users.id := 1; Users.email := "admin@toelettatura.com";
     Users.password := Sample.bcrypt_hash "admin123" 10; Users.role := Some "admin";
     Users.fcm_token := None; Users.created_at := 1000 |}.

Definition fido : Body.booking :=
  {| Body.clientName := Some (JS.JStr "Mario Rossi"); Body.clientPhone := None;
     Body.clientEmail := None; Body.petName := Some (JS.JStr "Fido");
     Body.petBreed := None; Body.serviceId := Some (JS.JNum 1);
     Body.appointmentDate := Some (JS.JStr "2024-06-01");
     Body.appointmentTime := Some (JS.JStr "10:00"); Body.notes := None |}.

(** The same request for a service that is not in the catalog. *)
Definition dangling : Body.booking :=
  {| Body.clientName := Some (JS.JStr "Mario Rossi"); Body.clientPhone := None;
     Body.clientEmail := None; Body.petName := Some (JS.JStr "Fido");
     Body.petBreed := None; Body.serviceId := Some (JS.JNum 999);
     Body.appointmentDate := Some (JS.JStr "2024-06-01");
     Body.appointmentTime := Some (JS.JStr "10:00"); Body.notes := None |}.

(** The same request without the pet name. *)
Definition nameless : Body.booking :=
  {| Body.clientName := Some (JS.JStr "Mario Rossi"); Body.clientPhone := None;
     Body.clientEmail := None; Body.petName := None;
     Body.petBreed := None; Body.serviceId := Some (JS.JNum 1);
     Body.appointmentDate := Some (JS.JStr "2024-06-01");
     Body.appointmentTime := Some (JS.JStr "10:00"); Body.notes := None |}.

(** The store with appointment 1 pending. *)
Definition booked : db :=
  snd (createAppointment (engine := Sample.engine) 2000 fido seeded).

(** Appointment 1 as stored. *)
Definition pending : Appointments.row :=
  {| Appointments.client_name := "Mario Rossi"; Appointments.client_phone := None;
     Appointments.client_email := None; Appointments.pet_name := "Fido";
     Appointments.pet_breed := None; Appointments.service_id := Some 1;
     Appointments.appointment_date := "2024-06-01";
     Appointments.appointment_time := "10:00:00"; Appointments.notes := None;
     Appointments.status := Some "pending"; Appointments.rejection_reason := None;
     Appointments.proposed_changes := None; Appointments.created_at := 2000;
     Appointments.updated_at := 2000 |}.

Definition confirm : Body.transition :=
  {| Body.status := Some (JS.JStr "confirmed"); Body.rejectionReason := None;
     Body.proposedChanges := None |}.

Definition reject : Body.transition :=
  {| Body.status := Some (JS.JStr "rejected");
     Body.rejectionReason := Some (JS.JStr "Agenda piena");
     Body.proposedChanges := None |}.

(** The store with appointment 1 rejected, a reason attached. *)
Definition rejected : db :=
  snd (updateStatus (engine := Sample.engine) 3000 "1" reject booked).

(** A status of 51 characters. *)
Definition overlong : string :=
  "xxxxxxxxxxxxxxxxxxxxxxxxxxxxxxxxxxxxxxxxxxxxxxxxxxx".

Definition overlong_status : Body.transition :=
  {| Body.status := Some (JS.JStr overlong); Body.rejectionReason := None;
     Body.proposedChanges := None |}.

(** An email with the NUL character in it. *)
Definition nul_email : string := String "a" (String (ascii_of_N 0) "b").

(** The token of the administrator's login at time 5000. *)
Definition admin_token : string :=
  jwt_sign (Crypto := Sample.crypto)
    {| Jwt.userId := 1; Jwt.email := "admin@toelettatura.com" |}
    (JWT_SECRET Sample.env) 5000 expiresIn.

End Run.

(** * Properties *)

(** ** The sample token format meets the contract *)

Module SampleFacts.
Import Sample.

Lemma read_pos_write (p : positive) (rest : string) :
  read_pos (write_pos p rest) = Some (p, rest).
Proof. induction p as [p IH|p IH|]; simpl; [rewrite IH..|]; reflexivity. Qed.

Lemma read_Z_write (z : Z) (rest : string) : read_Z (write_Z z rest) = Some (z, rest).
Proof. destruct z; simpl; [|rewrite read_pos_write..]; reflexivity. Qed.

Lemma cut_append (a b : string) : cut (String.length a) (a +:+ b) = Some (a, b).
Proof.
  induction a as [|c a IH]; [reflexivity|].
  change (String c a +:+ b) with (String c (a +:+ b)). simpl. now rewrite IH.
Qed.

Lemma unarmor_char (c : ascii) (s : string) :
  unarmor (armor (String c s)) = match unarmor (armor s) with
                                 | Some s => Some (String c s)
                                 | None => None
                                 end.
Proof.
  destruct c as [[] [] [] [] [] [] [] []]; reflexivity.
Qed.

Lemma unarmor_armor (s : string) : unarmor (armor s) = Some s.
Proof.
  induction s as [|c s IH]; [reflexivity|].
  rewrite unarmor_char, IH. reflexivity.
Qed.

Lemma armor_no_space (s : string) : Jwt.has_space (armor s) = false.
Proof.
  induction s as [|c s IH]; [reflexivity|].
  destruct c as [[] [] [] [] [] [] [] []]; exact IH.
Qed.

Lemma verify_sign (p : Jwt.payload) (secret : string) (t life now : Z) :
  jwt_verify (jwt_sign p secret t life) secret now =
  if now <? t + life
  then inr {| Jwt.claims := p; Jwt.iat := t; Jwt.exp := t + life |}
  else inl Jwt.TokenExpiredError.
Proof.
  unfold jwt_verify, jwt_sign.
  rewrite unarmor_armor. simpl.
  repeat (rewrite read_Z_write; simpl).
  rewrite Nat2Z.id, cut_append. simpl.
  rewrite String.eqb_refl. simpl. destruct p. reflexivity.
Qed.

Lemma sign_compact (p : Jwt.payload) (secret : string) (t life : Z) :
  Jwt.compact (jwt_sign p secret t life).
Proof.
  split; [discriminate|]. unfold jwt_sign. simpl. apply armor_no_space.
Qed.

Lemma compare_hash (s : string) (rounds : Z) : bcrypt_compare s (bcrypt_hash s rounds) = true.
Proof. apply String.eqb_refl. Qed.

Lemma leb_trans (a b c : string) :
  String.leb a b = true -> String.leb b c = true -> String.leb a c = true.
Proof.
  intros Hab Hbc. apply Is_true_true.
  apply (transitivity (R := String.le) (y := b)); apply Is_true_true; assumption.
Qed.

End SampleFacts.

Lemma sample_contract : CryptoContract Sample.crypto.
Proof.
  split.
  - exact SampleFacts.compare_hash.
  - exact SampleFacts.verify_sign.
  - exact SampleFacts.sign_compact.
Qed.

Lemma sample_collation : Pg.Collation Sample.engine.
Proof. split; [exact String.leb_total|exact SampleFacts.leb_trans]. Qed.

(** ** The authentication gate *)

Section Gate.

Context {crypto : Crypto} {contract : CryptoContract crypto}.
Variable env : environment.

Lemma append_cons (c : ascii) (a b : string) : String c a +:+ b = String c (a +:+ b).
Proof. reflexivity. Qed.

Lemma has_space_cons (c : ascii) (s : string) :
  Jwt.has_space (String c s) = false -> Ascii.eqb c " " = false /\ Jwt.has_space s = false.
Proof. simpl. apply orb_false_elim. Qed.

(** Splitting at the first space: the scheme word, then the split of the
    rest. *)
Lemma split_scheme (scheme rest : string) :
  Jwt.has_space scheme = false ->
  JS.split " " (scheme +:+ " " +:+ rest) = scheme :: JS.split " " rest.
Proof.
  induction scheme as [|c scheme IH]; intros Hs; [reflexivity|].
  apply has_space_cons in Hs as [Hc Hs].
  rewrite append_cons. simpl. rewrite Hc, (IH Hs). reflexivity.
Qed.

Lemma split_word (word : string) :
  Jwt.has_space word = false -> JS.split " " word = [word].
Proof.
  induction word as [|c word IH]; intros Hs; [reflexivity|].
  apply has_space_cons in Hs as [Hc Hs].
  simpl. rewrite Hc, (IH Hs). reflexivity.
Qed.

Lemma split_head (s : string) : exists first others, JS.split " " s = first :: others.
Proof.
  induction s as [|c s (first & others & IH)]; simpl; [eauto|].
  destruct (Ascii.eqb c " "); [eauto|]. rewrite IH. eauto.
Qed.

(** The token the gate reads from [<scheme> <rest>] is the first component
    of [rest], whatever the scheme word. *)
Lemma header_token_scheme (scheme rest : string) :
  Jwt.has_space scheme = false ->
  header_token (Some (scheme +:+ " " +:+ rest)) = JS.split " " rest !! 0%nat.
Proof.
  intros Hs. unfold header_token.
  destruct (String.eqb_spec (scheme +:+ " " +:+ rest) "") as [E|_].
  - destruct scheme; discriminate E.
  - rewrite (split_scheme _ _ Hs). reflexivity.
Qed.

Lemma header_token_compact (scheme t : string) :
  Jwt.has_space scheme = false -> Jwt.has_space t = false ->
  header_token (Some (scheme +:+ " " +:+ t)) = Some t.
Proof.
  intros Hs Ht. rewrite (header_token_scheme _ _ Hs), (split_word _ Ht). reflexivity.
Qed.

Lemma header_token_word (word : string) :
  Jwt.has_space word = false -> no_token (header_token (Some word)) = true.
Proof.
  intros Hw. unfold header_token.
  destruct (String.eqb_spec word "") as [->|_]; [reflexivity|].
  rewrite (split_word _ Hw). reflexivity.
Qed.

Lemma authenticateToken_token (now : Z) (authHeader : option string) (t : string) :
  header_token authHeader = Some t -> t <> "" ->
  authenticateToken env now authHeader =
  match jwt_verify t (JWT_SECRET env) now with
  | inl _ => Respond token_invalid
  | inr user => Next user
  end.
Proof.
  intros Ht Hne. unfold authenticateToken. rewrite Ht. simpl.
  destruct (String.eqb_spec t "") as [E|_]; [contradiction|reflexivity].
Qed.

Lemma bearer (t : string) : "Bearer " +:+ t = "Bearer" +:+ " " +:+ t.
Proof. reflexivity. Qed.

(** Two spaces after the scheme word leave an empty second component. *)
Lemma authenticateToken_two_spaces (now : Z) (scheme t : string) :
  Jwt.has_space scheme = false ->
  authenticateToken env now (Some (scheme +:+ " " +:+ " " +:+ t)) =
  Respond token_required.
Proof.
  intros Hs. unfold authenticateToken.
  rewrite (header_token_scheme scheme (" " +:+ t) Hs). reflexivity.
Qed.

Lemma authenticateToken_bearer (now : Z) (t : string) :
  Jwt.compact t ->
  authenticateToken env now (Some ("Bearer " +:+ t)) =
  match jwt_verify t (JWT_SECRET env) now with
  | inl _ => Respond token_invalid
  | inr user => Next user
  end.
Proof.
  intros [Hne Ht]. apply authenticateToken_token; [|assumption].
  rewrite bearer. now apply header_token_compact.
Qed.

(** C10. The gate never looks at the scheme word: a header [<scheme> t]
    gets the answer that [Bearer t] gets, so a valid token passes under any
    scheme; a header of one word only ([Bearer] alone, or a bare token) is
    answered as a missing token. *)
Theorem authenticateToken_any_scheme (now : Z) (scheme t word : string) :
  Jwt.has_space scheme = false ->
  Jwt.has_space word = false ->
  authenticateToken env now (Some (scheme +:+ " " +:+ t)) =
    authenticateToken env now (Some ("Bearer " +:+ t))
  /\ (forall user, Jwt.compact t -> jwt_verify t (JWT_SECRET env) now = inr user ->
        authenticateToken env now (Some (scheme +:+ " " +:+ t)) = Next user)
  /\ authenticateToken env now (Some word) = Respond token_required.
Proof.
  intros Hs Hw. split; [|split].
  - unfold authenticateToken.
    rewrite (header_token_scheme scheme t Hs), bearer.
    rewrite (header_token_scheme "Bearer" t eq_refl). reflexivity.
  - intros user [Hne Ht] Hv.
    rewrite (authenticateToken_token now _ t); [now rewrite Hv| |assumption].
    now apply header_token_compact.
  - unfold authenticateToken. now rewrite (header_token_word _ Hw).
Qed.

(** C3, as the code has it. A request without a token (no Authorization
    header, or a header of one word) is answered 401, not Forbidden; a token
    that [jwt.verify] refuses, for whatever reason, is answered 403
    Forbidden, and so is a token of login presented once its 24 hours are
    over. *)
Theorem authenticateToken_rejections (now : Z) :
  authenticateToken env now None = Respond token_required
  /\ (forall word, Jwt.has_space word = false ->
        authenticateToken env now (Some word) = Respond token_required)
  /\ (forall scheme t e, Jwt.has_space scheme = false -> Jwt.compact t ->
        jwt_verify t (JWT_SECRET env) now = inl e ->
        authenticateToken env now (Some (scheme +:+ " " +:+ t)) = Respond token_invalid)
  /\ (forall p issued, issued + expiresIn <= now ->
        authenticateToken env now
          (Some ("Bearer " +:+ jwt_sign p (JWT_SECRET env) issued expiresIn)) =
        Respond token_invalid)
  /\ Http.outcome_of token_required = Http.Unauthorized
  /\ Http.outcome_of token_invalid = Http.Forbidden.
Proof.
  split; [reflexivity|]. split; [|split; [|split; [|split; reflexivity]]].
  - intros word Hw. unfold authenticateToken. now rewrite (header_token_word _ Hw).
  - intros scheme t e Hs [Hne Ht] Hv.
    rewrite (authenticateToken_token now _ t); [now rewrite Hv| |assumption].
    now apply header_token_compact.
  - intros p issued Hexp.
    rewrite authenticateToken_bearer by apply jwt_sign_compact.
    rewrite jwt_verify_sign.
    destruct (Z.ltb_spec now (issued + expiresIn)); [lia|reflexivity].
Qed.

End Gate.

(** ** Login *)

Section Login.

Context {crypto : Crypto} {contract : CryptoContract crypto}.
Variable env : environment.

Lemma truthy_string (s : string) : s <> "" -> JS.truthy (Some (JS.JStr s)) = true.
Proof. intros Hs. simpl. now destruct (String.eqb_spec s ""). Qed.

Lemma filter_email_none (e : string) (l : list Users.row) :
  (forall u, u ∈ l -> Users.email u <> e) ->
  filter (fun u => Users.email u = e) l = [].
Proof.
  induction l as [|a l IH]; intros Hl; [reflexivity|].
  rewrite filter_cons_False; [|apply Hl; left].
  apply IH. intros u Hu. apply Hl. now right.
Qed.

(** Under the UNIQUE constraint the lookup by a stored email returns that
    user alone. *)
Lemma filter_email_unique (u : Users.row) (l : list Users.row) :
  NoDup (Users.email <$> l) -> u ∈ l ->
  filter (fun v => Users.email v = Users.email u) l = [u].
Proof.
  induction l as [|a l IH]; intros Hnd Hu; [inversion Hu|].
  rewrite fmap_cons in Hnd. apply NoDup_cons in Hnd as [Ha Hnd].
  apply elem_of_cons in Hu as [->|Hu].
  - rewrite filter_cons_True by reflexivity. f_equal.
    apply filter_email_none. intros v Hv Hve. apply Ha.
    rewrite <- Hve. now apply list_elem_of_fmap_2.
  - rewrite filter_cons_False; [now apply IH|].
    intros Hae. apply Ha. rewrite Hae. now apply list_elem_of_fmap_2.
Qed.

(** What login does once both fields are non-empty strings, and the email
    a text that the store takes. *)
Lemma login_strings (now : Z) (e pw : string) (st : db) :
  e <> "" -> pw <> "" -> Pg.has_nul e = false ->
  login env now {| Body.email := Some (JS.JStr e); Body.password := Some (JS.JStr pw) |} st =
  match filter (fun u => Users.email u = e) (users st) with
  | [] => (invalid_credentials, receive SelectUserByEmail st)
  | user :: _ =>
      if bcrypt_compare pw (Users.password user) then
        (respond 200
           (Http.LoggedIn "Login effettuato con successo"
              (jwt_sign {| Jwt.userId := Users.id user; Jwt.email := Users.email user |}
                 (JWT_SECRET env) now expiresIn)
              (Users.id user) (Users.email user) (Users.role user)),
         receive SelectUserByEmail st)
      else (invalid_credentials, receive SelectUserByEmail st)
  end.
Proof.
  intros He Hpw Hclean. unfold login. cbn [Body.email Body.password].
  rewrite (truthy_string e He), (truthy_string pw Hpw). cbn [negb orb].
  unfold select_user_by_email, Pg.text_in. cbn. rewrite Hclean. cbn.
  destruct (filter _ (users st)) as [|user rows]; reflexivity.
Qed.

(** An email that holds the NUL character ends the lookup: the answer is
    500. *)
Lemma login_nul (now : Z) (e pw : string) (st : db) :
  e <> "" -> pw <> "" -> Pg.has_nul e = true ->
  login env now {| Body.email := Some (JS.JStr e); Body.password := Some (JS.JStr pw) |} st =
  (respond 500 (Http.Error "Errore durante il login"), receive SelectUserByEmail st).
Proof.
  intros He Hpw Hnul. unfold login. cbn [Body.email Body.password].
  rewrite (truthy_string e He), (truthy_string pw Hpw). cbn [negb orb].
  unfold select_user_by_email, Pg.text_in. cbn. rewrite Hnul. reflexivity.
Qed.

(** C2. For a stored user and a password that matches the stored hash,
    login answers 200 with a token; the gate accepts that token, under the
    Bearer scheme, at every time before 24 hours have passed since it was
    issued, with the identifier and the email of that user as its claims,
    and refuses it from then on. *)
Theorem login_issues_valid_token (now : Z) (st : db) (u : Users.row) (pw : string) :
  consistent st ->
  u ∈ users st ->
  Users.email u <> "" ->
  pw <> "" ->
  bcrypt_compare pw (Users.password u) = true ->
  exists token,
    login env now
      {| Body.email := Some (JS.JStr (Users.email u)); Body.password := Some (JS.JStr pw) |} st =
    (respond 200
       (Http.LoggedIn "Login effettuato con successo" token
          (Users.id u) (Users.email u) (Users.role u)),
     receive SelectUserByEmail st)
    /\ (forall t, t < now + 24 * 3600 ->
          authenticateToken env t (Some ("Bearer " +:+ token)) =
          Next {| Jwt.claims := {| Jwt.userId := Users.id u; Jwt.email := Users.email u |};
                  Jwt.iat := now; Jwt.exp := now + 24 * 3600 |})
    /\ (forall t, now + 24 * 3600 <= t ->
          authenticateToken env t (Some ("Bearer " +:+ token)) = Respond token_invalid).
Proof.
  intros Hst Hu He Hpw Hmatch.
  eexists. split; [|split].
  - rewrite (login_strings now _ _ st He Hpw (emails_stored st Hst u Hu)).
    rewrite (filter_email_unique u _ (emails_unique st Hst) Hu), Hmatch. reflexivity.
  - intros t Ht.
    rewrite authenticateToken_bearer by apply jwt_sign_compact.
    rewrite jwt_verify_sign. change expiresIn with (24 * 3600).
    destruct (Z.ltb_spec t (now + 24 * 3600)); [reflexivity|lia].
  - intros t Ht.
    rewrite authenticateToken_bearer by apply jwt_sign_compact.
    rewrite jwt_verify_sign. change expiresIn with (24 * 3600).
    destruct (Z.ltb_spec t (now + 24 * 3600)); [lia|reflexivity].
Qed.

(** C7. With an email without a NUL character (a text the store takes)
    that no stored user has, or a password that the hash stored for that
    email does not match, login answers 401 Unauthorized, carries no token,
    and leaves the tables as they were. *)
Theorem login_rejects_bad_credentials (now : Z) (st : db) (e pw : string) :
  consistent st ->
  e <> "" ->
  pw <> "" ->
  Pg.has_nul e = false ->
  (forall u, u ∈ users st -> Users.email u <> e)
  \/ (exists u, u ∈ users st /\ Users.email u = e
                /\ bcrypt_compare pw (Users.password u) = false) ->
  let answer :=
    login env now {| Body.email := Some (JS.JStr e); Body.password := Some (JS.JStr pw) |} st in
  answer = (invalid_credentials, receive SelectUserByEmail st)
  /\ Http.outcome_of (fst answer) = Http.Unauthorized
  /\ issued_token (fst answer) = None
  /\ users (snd answer) = users st
  /\ services (snd answer) = services st
  /\ appointments (snd answer) = appointments st.
Proof.
  intros Hst He Hpw Hclean Hbad answer.
  assert (answer = (invalid_credentials, receive SelectUserByEmail st)) as ->.
  { unfold answer. rewrite (login_strings now _ _ st He Hpw Hclean).
    destruct Hbad as [Hunknown|(u & Hu & <- & Hwrong)].
    - now rewrite (filter_email_none e _ Hunknown).
    - now rewrite (filter_email_unique u _ (emails_unique st Hst) Hu), Hwrong. }
  repeat split.
Qed.

(** The seeded administrator logs in with the seeded password. *)
Lemma login_seeded_admin (seeded_at now : Z) :
  exists token,
    fst (login env now
           {| Body.email := Some (JS.JStr "admin@toelettatura.com");
              Body.password := Some (JS.JStr "admin123") |}
           (initDatabase seeded_at None)) =
    respond 200
      (Http.LoggedIn "Login effettuato con successo" token 1 "admin@toelettatura.com"
         (Some "admin")).
Proof.
  eexists. rewrite login_strings by (discriminate || reflexivity).
  unfold initDatabase. cbn [users]. rewrite filter_cons_True by reflexivity.
  cbn [Users.password]. rewrite bcrypt_compare_hash. reflexivity.
Qed.

End Login.

(** ** The catalog *)

Section Catalog.

Context {engine : Pg.Engine} {collation : Pg.Collation engine}.

#[local] Instance name_le_total : Total name_le.
Proof. intros a b. apply Pg.collate_le_total. Qed.

#[local] Instance name_le_transitive : Transitive name_le.
Proof. intros a b c. apply Pg.collate_le_trans. Qed.

Lemma filter_none {A} (P : A -> Prop) `{forall x, Decision (P x)} (l : list A) :
  (forall x, x ∈ l -> ~ P x) -> filter P l = [].
Proof.
  induction l as [|a l IH]; intros Hl; [reflexivity|].
  rewrite filter_cons_False; [|apply Hl; left].
  apply IH. intros x Hx. apply Hl. now right.
Qed.

(** C8. listServices answers 200 with exactly the services whose active
    flag is true, each as often as the catalog holds it, in ascending order
    of name; no service whose flag is false is among them, and with no
    active service the answer is the empty list. *)
Theorem listServices_active_by_name (st : db) :
  exists rows,
    listServices st = (respond 200 (Http.ServiceList rows), receive SelectActiveServices st)
    /\ rows ≡ₚ filter (fun s => Services.active s = Some true) (services st)
    /\ StronglySorted name_le rows
    /\ (forall s, s ∈ rows <-> s ∈ services st /\ Services.active s = Some true)
    /\ (forall s, s ∈ rows -> Services.active s <> Some false)
    /\ ((forall s, s ∈ services st -> Services.active s <> Some true) -> rows = []).
Proof.
  eexists. split; [reflexivity|].
  assert (Hperm := merge_sort_Permutation name_le
                     (filter (fun s => Services.active s = Some true) (services st))).
  assert (Hin : forall s,
             s ∈ merge_sort name_le
                   (filter (fun s => Services.active s = Some true) (services st))
             <-> s ∈ services st /\ Services.active s = Some true).
  { intros s. rewrite Hperm, list_elem_of_filter. tauto. }
  split; [exact Hperm|]. split; [apply StronglySorted_merge_sort; apply _|].
  split; [exact Hin|]. split.
  - intros s Hs Hfalse. apply Hin in Hs as [_ Hs]. congruence.
  - intros Hnone. rewrite filter_none; [reflexivity|exact Hnone].
Qed.

End Catalog.

(** ** Appointments *)

Ltac invert_reads H :=
  repeat match type of H with
         | Pg.bind ?r _ = inr _ =>
             let E := fresh "Hread" in
             destruct r eqn:E; simpl in H; [discriminate H|]
         end.

Section Booking.

Context {engine : Pg.Engine}.

(** C5. When one of the five required fields is missing (or otherwise
    falsy: null, empty, zero, false), createAppointment answers 400
    BadRequest and the store is the one it was: no row is added and no
    statement is sent. *)
Theorem createAppointment_missing_field (now : Z) (body : Body.booking) (st : db) :
  JS.truthy (Body.clientName body) = false
  \/ JS.truthy (Body.petName body) = false
  \/ JS.truthy (Body.serviceId body) = false
  \/ JS.truthy (Body.appointmentDate body) = false
  \/ JS.truthy (Body.appointmentTime body) = false ->
  let answer := createAppointment now body st in
  fst answer = missing_fields
  /\ Http.outcome_of (fst answer) = Http.BadRequest
  /\ snd answer = st
  /\ appointments (snd answer) = appointments st
  /\ received (snd answer) = received st.
Proof.
  intros Hmissing answer.
  assert (answer = (missing_fields, st)) as ->; [|repeat split].
  unfold answer, createAppointment, required_missing.
  destruct Hmissing as [E|[E|[E|[E|E]]]]; rewrite E; cbn [negb orb];
    rewrite ?orb_true_r; reflexivity.
Qed.

Lemma prepareValue_truthy (v : JS.value) :
  JS.truthy v = true -> exists s, Pg.prepareValue v = Some s.
Proof. destruct v as [[| [] | | | |]|]; simpl; intros Hv; try discriminate Hv; eauto. Qed.

Lemma nullable_present {A B} (f : A -> Pg.result B) (a : A) (r : option B) :
  Pg.nullable f (Some a) = inr r -> exists b, r = Some b.
Proof. simpl. destruct (f a); simpl; intros E; [discriminate E|]. inversion E. eauto. Qed.

(** C4, as the code has it. When the five required fields are present
    and the store accepts the row (every value reads into the type of its
    column, which for a character column rules out the NUL character; the
    sequence of identifiers is not exhausted; and the service reference is
    the key of a service), createAppointment answers 200 with the stored
    record: its status is 'pending', its rejection reason and proposed
    changes are NULL, its timestamps are the time of the insert, and its
    identifier, drawn from the sequence and within INTEGER, is the key of no
    earlier record. *)
Theorem createAppointment_pending (now : Z) (body : Body.booking) (st : db)
    (client_name client_phone client_email pet_name pet_breed : option string)
    (service_id : option Z) (appointment_date appointment_time notes : option string) :
  consistent st ->
  required_missing body = false ->
  read_request body =
    inr (client_name, client_phone, client_email, pet_name, pet_breed,
         service_id, appointment_date, appointment_time, notes) ->
  appointments_id_seq st <= 2147483647 ->
  references_service service_id st = true ->
  let answer := createAppointment now body st in
  exists row,
    fst answer =
      respond 200
        (Http.Created "Appuntamento creato con successo"
           (Some {| Appointments.id := appointments_id_seq st; Appointments.columns := row |}))
    /\ Appointments.status row = Some "pending"
    /\ Appointments.rejection_reason row = None
    /\ Appointments.proposed_changes row = None
    /\ Appointments.created_at row = now
    /\ Appointments.updated_at row = now
    /\ (client_name = Some (Appointments.client_name row)
        /\ pet_name = Some (Appointments.pet_name row)
        /\ appointment_date = Some (Appointments.appointment_date row)
        /\ appointment_time = Some (Appointments.appointment_time row)
        /\ Appointments.client_phone row = client_phone
        /\ Appointments.client_email row = client_email
        /\ Appointments.pet_breed row = pet_breed
        /\ Appointments.service_id row = service_id
        /\ Appointments.notes row = notes)
    /\ appointments st !! appointments_id_seq st = None
    /\ appointments (snd answer) = <[appointments_id_seq st := row]> (appointments st)
    /\ consistent (snd answer).
Proof.
  intros Hst Hpresent Hread Hseq Href answer.
  apply Z.leb_le in Hseq.
  assert (Hfresh : appointments st !! appointments_id_seq st = None).
  { destruct (appointments st !! appointments_id_seq st) as [r|] eqn:E; [|reflexivity].
    apply (keys_issued st Hst) in E. lia. }
  pose proof Hpresent as Hfields. unfold required_missing in Hfields.
  repeat (apply orb_false_elim in Hfields as [? Hfields]).
  repeat match goal with
         | H : negb (JS.truthy ?v) = false |- _ =>
             apply negb_false_iff, prepareValue_truthy in H as [? ?]
         end.
  pose proof Hread as Hparts. unfold read_request, read_booking in Hparts.
  invert_reads Hparts. injection Hparts as -> -> -> -> -> -> -> -> ->.
  repeat match goal with
         | H : Pg.prepareValue ?v = Some _, E : Pg.nullable _ (Pg.prepareValue ?v) = inr _ |- _ =>
             rewrite H in E; apply nullable_present in E as [? ->]
         end.
  unfold answer, createAppointment. rewrite Hpresent. unfold insert_appointment.
  fold (read_request body). rewrite Hread. unfold nextval.
  cbn [receive appointments_id_seq]. rewrite Hseq. cbn. cbn in Href. rewrite Href. cbn.
  eexists. split; [reflexivity|]. cbn.
  repeat (split; [reflexivity|]). split; [repeat split|].
  split; [exact Hfresh|]. split; [reflexivity|].
  split; cbn.
  - intros id r. destruct (decide (id = appointments_id_seq st)) as [->|Hne].
    + lia.
    + rewrite lookup_insert_ne by congruence. intros E.
      apply (keys_issued st Hst) in E. lia.
  - apply (emails_unique st Hst).
  - apply (emails_stored st Hst).
Qed.

End Booking.

(** ** The status transition *)

Section Transition.

Context {engine : Pg.Engine}.

Lemma prepareValue_stringify (v : JS.value) :
  Pg.prepareValue (JS.JStr <$> JS.JSON_stringify v) = JS.JSON_stringify v.
Proof. destruct v; reflexivity. Qed.

(** A string without a NUL character and within the length of its VARCHAR
    column is stored as it is. *)
Lemma varchar_in_fits (n : nat) (s : string) :
  Pg.has_nul s = false -> (String.length s <= n)%nat -> Pg.varchar_in n s = inr s.
Proof.
  intros Hclean Hlen. unfold Pg.varchar_in, Pg.text_in. rewrite Hclean. simpl.
  now apply Nat.leb_le in Hlen as ->.
Qed.

(** A character parameter that is taken is stored as it was sent. *)
Lemma text_in_verbatim (p r : option string) :
  Pg.nullable Pg.text_in p = inr r -> r = p.
Proof.
  destruct p as [s|]; simpl; [|now intros [= <-]].
  unfold Pg.text_in. destruct (Pg.has_nul s); simpl; [discriminate|]. now intros [= <-].
Qed.

(** The parameters of a request, as the update reads them. *)
Lemma read_transition_request (id : string) (body : Body.transition) :
  read_transition
    (Pg.prepareValue (Body.status body)) (Pg.prepareValue (Body.rejectionReason body))
    (Pg.prepareValue (JS.JStr <$> JS.JSON_stringify (Body.proposedChanges body))) (Some id) =
  (status <- Pg.nullable (Pg.varchar_in 50) (Pg.prepareValue (Body.status body)) ;;
   reason <- Pg.nullable Pg.text_in (Pg.prepareValue (Body.rejectionReason body)) ;;
   changes <- read_jsonb (JS.JSON_stringify (Body.proposedChanges body)) ;;
   n <- Pg.int4in id ;;
   Pg.ok (status, reason, changes, Some n)).
Proof.
  unfold read_transition. rewrite prepareValue_stringify.
  destruct (Pg.nullable (Pg.varchar_in 50) _) as [|status]; [reflexivity|]. simpl.
  destruct (Pg.nullable Pg.text_in _) as [|reason]; [reflexivity|]. simpl.
  destruct (read_jsonb _); simpl; try reflexivity;
    destruct (Pg.int4in id); reflexivity.
Qed.

(** The three ways the handler can go. *)
Lemma updateStatus_cases (now : Z) (id : string) (body : Body.transition) (st : db) :
  updateStatus now id body st =
  match
    (status <- Pg.nullable (Pg.varchar_in 50) (Pg.prepareValue (Body.status body)) ;;
     reason <- Pg.nullable Pg.text_in (Pg.prepareValue (Body.rejectionReason body)) ;;
     changes <- read_jsonb (JS.JSON_stringify (Body.proposedChanges body)) ;;
     n <- Pg.int4in id ;;
     Pg.ok (status, reason, changes, n))
  with
  | inl _ => (update_failed, receive UpdateAppointmentStatus st)
  | inr (status, reason, changes, n) =>
      match appointments st !! n with
      | None => (not_found, receive UpdateAppointmentStatus st)
      | Some old =>
          let new := set_status status reason changes now old in
          (respond 200
             (Http.Appointment {| Appointments.id := n; Appointments.columns := new |}),
           store_appointment n new (receive UpdateAppointmentStatus st))
      end
  end.
Proof.
  unfold updateStatus, update_appointment_status. rewrite read_transition_request.
  destruct (Pg.nullable (Pg.varchar_in 50) _) as [|status]; [reflexivity|]. simpl.
  destruct (Pg.nullable Pg.text_in _) as [|reason]; [reflexivity|]. simpl.
  destruct (read_jsonb _) as [|changes]; [reflexivity|]. simpl.
  destruct (Pg.int4in id) as [|n]; [reflexivity|]. simpl.
  destruct (appointments st !! n); reflexivity.
Qed.

(** C9, as the code has it. When an updateStatus call on an existing
    appointment goes through, a rejectionReason or proposedChanges that the
    request leaves out is stored as NULL, whatever the column held. *)
Theorem updateStatus_omitted_is_null (now : Z) (id : string) (n : Z) (st : db)
    (old : Appointments.row) (body : Body.transition) :
  Pg.int4in id = inr n ->
  appointments st !! n = Some old ->
  let answer := updateStatus now id body st in
  Http.outcome_of (fst answer) = Http.Success ->
  exists new,
    appointments (snd answer) !! n = Some new
    /\ fst answer =
       respond 200 (Http.Appointment {| Appointments.id := n; Appointments.columns := new |})
    /\ (Body.rejectionReason body = None -> Appointments.rejection_reason new = None)
    /\ (Body.proposedChanges body = None -> Appointments.proposed_changes new = None).
Proof.
  intros Hid Hold answer. unfold answer. rewrite updateStatus_cases.
  destruct (Pg.nullable (Pg.varchar_in 50) _) as [|status]; [discriminate|].
  cbn [Pg.bind].
  destruct (Pg.nullable Pg.text_in _) as [|reason] eqn:Hreason; [discriminate|].
  cbn [Pg.bind].
  destruct (read_jsonb _) as [|changes] eqn:Hchanges; [discriminate|].
  rewrite Hid. cbn [Pg.bind Pg.ok]. rewrite Hold. cbn [fst snd]. intros _.
  eexists. split; [apply lookup_insert_eq|]. split; [reflexivity|].
  cbn. split.
  - intros E. rewrite E in Hreason. now inversion Hreason.
  - intros E. rewrite E in Hchanges. now inversion Hchanges.
Qed.

(** C6, as the code has it. For an id that reads as an integer that is
    the key of no appointment, with a status, a rejection reason and
    proposed changes that their columns accept (VARCHAR(50), TEXT and JSONB:
    no NUL character in the first two, at most 50 characters in the status),
    updateStatus answers 404 NotFound and leaves every table as it was. *)
Theorem updateStatus_unknown_id (now : Z) (id : string) (n : Z) (st : db)
    (body : Body.transition) (status reason changes : option string) :
  Pg.int4in id = inr n ->
  appointments st !! n = None ->
  Pg.nullable (Pg.varchar_in 50) (Pg.prepareValue (Body.status body)) = inr status ->
  Pg.nullable Pg.text_in (Pg.prepareValue (Body.rejectionReason body)) = inr reason ->
  read_jsonb (JS.JSON_stringify (Body.proposedChanges body)) = inr changes ->
  let answer := updateStatus now id body st in
  fst answer = not_found
  /\ Http.outcome_of (fst answer) = Http.NotFound
  /\ appointments (snd answer) = appointments st
  /\ same_catalog (snd answer) st.
Proof.
  intros Hid Hnone Hstatus Hreason Hchanges answer.
  unfold answer. rewrite updateStatus_cases, Hstatus. cbn [Pg.bind].
  rewrite Hreason. cbn [Pg.bind]. rewrite Hchanges, Hid.
  cbn [Pg.bind Pg.ok]. rewrite Hnone. repeat split.
Qed.

End Transition.

(** ** The invariant along the life of the store *)

Section Invariant.

Context {crypto : Crypto} {engine : Pg.Engine}.
Variable env : environment.

Lemma initDatabase_consistent (now : Z) : consistent (initDatabase now None).
Proof.
  split; cbn.
  - intros id r E. now rewrite lookup_empty in E.
  - apply NoDup_singleton.
  - intros u Hu. apply list_elem_of_singleton in Hu as ->. reflexivity.
Qed.

Lemma initDatabase_initialized (now : Z) (st : db) : initDatabase now (Some st) = st.
Proof. reflexivity. Qed.

Lemma consistent_receive (q : statement) (st : db) :
  consistent st -> consistent (receive q st).
Proof. intros [Hk He Hs]. split; assumption. Qed.

Lemma consistent_nextval (st : db) : consistent st -> consistent (snd (nextval st)).
Proof.
  intros [Hk He Hs]. unfold nextval.
  destruct (appointments_id_seq st <=? 2147483647); split; cbn; try assumption.
  intros id r E. apply Hk in E. lia.
Qed.

Lemma consistent_store (id : Z) (r : Appointments.row) (st : db) :
  id < appointments_id_seq st -> consistent st -> consistent (store_appointment id r st).
Proof.
  intros Hid [Hk He Hs]. split; cbn; [|assumption|assumption].
  intros k r'. destruct (decide (k = id)) as [->|Hne]; [intros _; exact Hid|].
  rewrite lookup_insert_ne by congruence. apply Hk.
Qed.

Lemma createAppointment_consistent (now : Z) (body : Body.booking) (st : db) :
  consistent st -> consistent (snd (createAppointment now body st)).
Proof.
  intros Hst. unfold createAppointment.
  destruct (required_missing body); [exact Hst|].
  unfold insert_appointment.
  destruct (read_booking _ _ _ _ _ _ _ _ _) as [e|[[[[[[[[cn cp] ce] pn] pb] sid] d] t] nt]];
    [now apply consistent_receive|].
  pose proof (consistent_nextval _ (consistent_receive InsertAppointment st Hst)) as Hnext.
  unfold nextval in *. cbn [receive appointments_id_seq] in *.
  destruct (appointments_id_seq st <=? 2147483647); [|exact Hnext].
  cbn [snd] in Hnext.
  destruct cn, pn, d, t; cbn; try exact Hnext.
  destruct (references_service sid _); cbn; [|exact Hnext].
  apply consistent_store; [cbn; lia|exact Hnext].
Qed.

Lemma updateStatus_consistent (now : Z) (id : string) (body : Body.transition) (st : db) :
  consistent st -> consistent (snd (updateStatus now id body st)).
Proof.
  intros Hst. rewrite updateStatus_cases.
  destruct (Pg.bind _ _) as [e|[[[status reason] changes] n]];
    [now apply consistent_receive|].
  destruct (appointments st !! n) as [old|] eqn:Hold; [|now apply consistent_receive].
  apply consistent_store; [|now apply consistent_receive].
  apply (keys_issued st Hst _ _ Hold).
Qed.

Lemma login_tables (now : Z) (body : Body.credentials) (st : db) :
  snd (login env now body st) = st
  \/ snd (login env now body st) = receive SelectUserByEmail st.
Proof.
  unfold login.
  destruct (orb _ _); [now left|]. right.
  unfold select_user_by_email, Pg.text_in. cbn.
  destruct (Pg.prepareValue (Body.email body)) as [e|]; cbn; [|reflexivity].
  destruct (Pg.has_nul e); cbn; [reflexivity|].
  destruct (filter _ (users st)) as [|user rows]; [reflexivity|].
  destruct (Body.password body) as [[| | |pw| |]|]; try reflexivity.
  destruct (bcrypt_compare pw _); reflexivity.
Qed.

(** The gate in front of the status update: without a token that verifies
    the store is not reached. *)
Lemma put_appointment_status_gate (now_jwt now : Z) (authHeader : option string)
    (id : string) (body : Body.transition) (st : db) :
  put_appointment_status env now_jwt now authHeader id body st =
  match authenticateToken env now_jwt authHeader with
  | Respond r => (r, st)
  | Next _ => updateStatus now id body st
  end.
Proof. reflexivity. Qed.

Lemma login_consistent (now : Z) (body : Body.credentials) (st : db) :
  consistent st -> consistent (snd (login env now body st)).
Proof.
  intros Hst. destruct (login_tables now body st) as [->| ->];
    [exact Hst|now apply consistent_receive].
Qed.

Lemma serve_consistent (r : request) (st : db) :
  consistent st -> consistent (snd (serve env r st)).
Proof.
  intros Hst. destruct r as [now body| |now body|now_jwt now authHeader id body]; cbn.
  - now apply login_consistent.
  - now apply consistent_receive.
  - now apply createAppointment_consistent.
  - rewrite put_appointment_status_gate.
    destruct (authenticateToken env now_jwt authHeader); [|exact Hst].
    now apply updateStatus_consistent.
Qed.

(** X16. In every store the server can be in, from the seeded one on and
    whatever the requests served, the keys of the appointments are below the
    next value of the sequence, no two users share an email, and every
    stored email is a text without a NUL character. *)
Lemma reachable_consistent (st : db) : reachable env st -> consistent st.
Proof.
  induction 1 as [now|r st _ IH].
  - apply initDatabase_consistent.
  - now apply serve_consistent.
Qed.

End Invariant.

(** ** The status transition while the clock runs forward *)

Section Clock.

Context {crypto : Crypto} {engine : Pg.Engine}.
Variable env : environment.

Lemma stamped_later (t t' : Z) (st : db) : t <= t' -> stamped t st -> stamped t' st.
Proof. intros Ht Hst id r E. apply Hst in E. lia. Qed.

Lemma stamped_receive (q : statement) (t : Z) (st : db) :
  stamped t st -> stamped t (receive q st).
Proof. intros Hst. exact Hst. Qed.

Lemma stamped_store (id : Z) (r : Appointments.row) (t : Z) (st : db) :
  Appointments.updated_at r <= t -> stamped t st -> stamped t (store_appointment id r st).
Proof.
  intros Hr Hst k r'. cbn. destruct (decide (k = id)) as [->|Hne].
  - rewrite lookup_insert_eq. now intros [= <-].
  - rewrite lookup_insert_ne by congruence. apply Hst.
Qed.

Lemma createAppointment_stamped (now : Z) (body : Body.booking) (st : db) :
  stamped now st -> stamped now (snd (createAppointment now body st)).
Proof.
  intros Hst. unfold createAppointment.
  destruct (required_missing body); [exact Hst|].
  unfold insert_appointment.
  destruct (read_booking _ _ _ _ _ _ _ _ _) as [e|[[[[[[[[cn cp] ce] pn] pb] sid] d] t] nt]];
    [exact Hst|].
  unfold nextval. cbn [receive appointments_id_seq].
  destruct (appointments_id_seq st <=? 2147483647); [|exact Hst].
  destruct cn, pn, d, t; cbn; try exact Hst.
  destruct (references_service sid _); cbn; [|exact Hst].
  apply stamped_store; [cbn; lia|exact Hst].
Qed.

Lemma updateStatus_stamped (now : Z) (id : string) (body : Body.transition) (st : db) :
  stamped now st -> stamped now (snd (updateStatus now id body st)).
Proof.
  intros Hst. rewrite updateStatus_cases.
  destruct (Pg.bind _ _) as [e|[[[status reason] changes] n]]; [exact Hst|].
  destruct (appointments st !! n) as [old|]; [|exact Hst].
  apply stamped_store; [cbn; lia|exact Hst].
Qed.

Lemma login_stamped (t now : Z) (body : Body.credentials) (st : db) :
  stamped t st -> stamped t (snd (login env now body st)).
Proof. intros Hst. now destruct (login_tables env now body st) as [->| ->]. Qed.

Lemma serve_stamped (t : Z) (r : request) (st : db) :
  stamps_at t r -> stamped t st -> stamped t (snd (serve env r st)).
Proof.
  intros Hr Hst. destruct r as [now body| |now body|now_jwt now authHeader id body]; cbn.
  - now apply login_stamped.
  - exact Hst.
  - cbn in Hr. subst now. now apply createAppointment_stamped.
  - cbn in Hr. subst now. rewrite put_appointment_status_gate.
    destruct (authenticateToken env now_jwt authHeader); [|exact Hst].
    now apply updateStatus_stamped.
Qed.

(** While the clock runs forward no stored row is stamped later than the
    last request. *)
Lemma timed_stamped (t : Z) (st : db) : timed env t st -> stamped t st.
Proof.
  induction 1 as [now|t t' r st _ IH Ht Hr].
  - intros id r E. cbn in E. now rewrite lookup_empty in E.
  - apply serve_stamped; [exact Hr|]. now apply (stamped_later t).
Qed.

(** A store reached while the clock runs forward is a store the server can
    be in. *)
Lemma timed_reachable (t : Z) (st : db) : timed env t st -> reachable env st.
Proof. induction 1; now constructor. Qed.

(** C1, as the code has it. For an id that reads as the key of an
    existing appointment, a status string of at most 50 characters and
    without a NUL character, a rejection reason that the TEXT column accepts
    and proposed changes that the JSONB column accepts, updateStatus answers
    200 and, in one statement, sets the status to that string as it is, the
    rejection reason and the proposed changes to the ones supplied, and
    [updated_at] to the time of the update; every other column of that
    appointment, every other appointment and the other tables stay as they
    were.  On a store that the server has reached with the clock of the
    store running forward, an update that is not before the last request
    leaves [updated_at] not before the previous one. *)
Theorem updateStatus_sets_status_columns (now : Z) (id : string) (n : Z) (st : db)
    (old : Appointments.row) (body : Body.transition) (s : string)
    (reason changes : option string) :
  Pg.int4in id = inr n ->
  appointments st !! n = Some old ->
  Body.status body = Some (JS.JStr s) ->
  Pg.has_nul s = false ->
  (String.length s <= 50)%nat ->
  Pg.nullable Pg.text_in (Pg.prepareValue (Body.rejectionReason body)) = inr reason ->
  read_jsonb (JS.JSON_stringify (Body.proposedChanges body)) = inr changes ->
  let answer := updateStatus now id body st in
  exists new,
    fst answer =
      respond 200 (Http.Appointment {| Appointments.id := n; Appointments.columns := new |})
    /\ appointments (snd answer) = <[n := new]> (appointments st)
    /\ Appointments.status new = Some s
    /\ Appointments.rejection_reason new = Pg.prepareValue (Body.rejectionReason body)
    /\ Appointments.proposed_changes new = changes
    /\ Appointments.updated_at new = now
    /\ (forall t, timed env t st -> t <= now ->
          Appointments.updated_at old <= Appointments.updated_at new)
    /\ same_booking old new
    /\ (forall m, m <> n -> appointments (snd answer) !! m = appointments st !! m)
    /\ same_catalog (snd answer) st
    /\ received (snd answer) = (received st ++ [UpdateAppointmentStatus])%list.
Proof.
  intros Hid Hold Hstatus Hclean Hlen Hreason Hchanges answer.
  pose proof (text_in_verbatim _ _ Hreason) as <-.
  unfold answer. rewrite updateStatus_cases.
  rewrite Hstatus. cbn [Pg.prepareValue Pg.nullable].
  rewrite (varchar_in_fits 50 s Hclean Hlen). cbn [Pg.bind].
  rewrite Hreason. cbn [Pg.bind]. rewrite Hchanges, Hid. cbn [Pg.bind Pg.ok].
  rewrite Hold. cbn [fst snd].
  eexists. split; [reflexivity|]. split; [reflexivity|].
  cbn. repeat (split; [reflexivity|]). split.
  { intros t Hrun Hnow. pose proof (timed_stamped t st Hrun n old Hold). lia. }
  split; [repeat split|]. split; [|repeat split].
  intros m Hm. now rewrite lookup_insert_ne.
Qed.

End Clock.

(** ** Login, whatever the body *)

Section LoginAnyBody.

Context {crypto : Crypto}.
Variable env : environment.

(** X1. When the email or the password is missing (or otherwise falsy),
    login answers 400 BadRequest and the store is the one it was: no
    statement is sent. *)
Theorem login_missing_field (now : Z) (body : Body.credentials) (st : db) :
  JS.truthy (Body.email body) = false \/ JS.truthy (Body.password body) = false ->
  login env now body st = (respond 400 (Http.Error "Email e password richiesti"), st)
  /\ Http.outcome_of (fst (login env now body st)) = Http.BadRequest.
Proof.
  intros Hmissing.
  assert (login env now body st =
          (respond 400 (Http.Error "Email e password richiesti"), st)) as ->;
    [|split; reflexivity].
  unfold login. destruct Hmissing as [E|E]; rewrite E; cbn [negb orb];
    rewrite ?orb_true_r; reflexivity.
Qed.

Lemma head_filter_email (e : string) (l rows : list Users.row) (u : Users.row) :
  filter (fun v => Users.email v = e) l = u :: rows -> u ∈ l /\ Users.email u = e.
Proof.
  intros E.
  assert (u ∈ filter (fun v => Users.email v = e) l) as Hu by (rewrite E; left).
  apply list_elem_of_filter in Hu as [He Hu]. split; assumption.
Qed.

(** X2. Whatever the body, an answer of login carries a token only when a
    stored user has the email sent and [bcrypt.compare] accepts the password,
    a string, for that user's hash; the token is the one signed for that
    user's identifier and email, for 24 hours from the time of the login. *)
Theorem login_token_only_on_match (now : Z) (body : Body.credentials) (st : db)
    (token : string) :
  issued_token (fst (login env now body st)) = Some token ->
  exists u pw,
    u ∈ users st
    /\ Pg.prepareValue (Body.email body) = Some (Users.email u)
    /\ Body.password body = Some (JS.JStr pw)
    /\ bcrypt_compare pw (Users.password u) = true
    /\ token = jwt_sign {| Jwt.userId := Users.id u; Jwt.email := Users.email u |}
                 (JWT_SECRET env) now expiresIn
    /\ Http.status (fst (login env now body st)) = 200.
Proof.
  unfold login.
  destruct (orb _ _); [discriminate|].
  unfold select_user_by_email, Pg.text_in. cbn.
  destruct (Pg.prepareValue (Body.email body)) as [e|]; cbn; [|discriminate].
  destruct (Pg.has_nul e); cbn; [discriminate|].
  destruct (filter _ (users st)) as [|u rows] eqn:Hrows; [discriminate|].
  apply head_filter_email in Hrows as [Hu <-].
  destruct (Body.password body) as [[| | |pw| |]|]; try discriminate.
  destruct (bcrypt_compare pw _) eqn:Hmatch; [|discriminate].
  cbn. intros [= <-]. exists u, pw. repeat split; assumption.
Qed.

(** X3. Whatever the body, login writes nothing: the tables and the
    sequence are the ones before, and the store has received the one lookup
    at most. *)
Theorem login_writes_nothing (now : Z) (body : Body.credentials) (st : db) :
  let st' := snd (login env now body st) in
  users st' = users st
  /\ services st' = services st
  /\ appointments st' = appointments st
  /\ appointments_id_seq st' = appointments_id_seq st
  /\ (received st' = received st
      \/ received st' = (received st ++ [SelectUserByEmail])%list).
Proof.
  intros st'. unfold st'.
  destruct (login_tables env now body st) as [->| ->]; repeat split; auto.
Qed.

End LoginAnyBody.

(** ** The gate, whatever the header *)

Section GateAnyHeader.

Context {crypto : Crypto} {engine : Pg.Engine}.
Variable env : environment.

(** The two answers of the gate. *)
Lemma authenticateToken_refusal (now : Z) (authHeader : option string) (r : Http.response) :
  authenticateToken env now authHeader = Respond r ->
  r = token_required \/ r = token_invalid.
Proof.
  unfold authenticateToken.
  destruct (no_token _); [intros [= <-]; now left|].
  destruct (jwt_verify _ _ _); [intros [= <-]; now right|discriminate].
Qed.

(** What stands behind a request that is let through. *)
Lemma authenticateToken_passes (now : Z) (authHeader : option string) (user : Jwt.decoded) :
  authenticateToken env now authHeader = Next user ->
  exists header t,
    authHeader = Some header
    /\ JS.split " " header !! 1%nat = Some t
    /\ t <> ""
    /\ jwt_verify t (JWT_SECRET env) now = inr user.
Proof.
  unfold authenticateToken, header_token.
  destruct authHeader as [header|]; [|discriminate].
  destruct (String.eqb_spec header "") as [->|Hheader]; [discriminate|].
  destruct (JS.split " " header !! 1%nat) as [t|] eqn:Ht; [|discriminate].
  cbn. destruct (String.eqb_spec t "") as [->|Hne]; [discriminate|].
  destruct (jwt_verify t (JWT_SECRET env) now) as [e|user'] eqn:Hv; [discriminate|].
  intros [= <-]. exists header, t. repeat split; assumption.
Qed.

(** X4. The gate lets a request through only with what [jwt.verify]
    decoded from the second component, not empty, of the Authorization
    header; every other request is answered 401 or 403. *)
Theorem authenticateToken_sound (now : Z) (authHeader : option string) :
  match authenticateToken env now authHeader with
  | Next user =>
      exists header t,
        authHeader = Some header
        /\ JS.split " " header !! 1%nat = Some t
        /\ t <> ""
        /\ jwt_verify t (JWT_SECRET env) now = inr user
  | Respond r => r = token_required \/ r = token_invalid
  end.
Proof.
  destruct (authenticateToken env now authHeader) as [user|r] eqn:Hgate.
  - now apply authenticateToken_passes.
  - now apply (authenticateToken_refusal now authHeader).
Qed.

(** X5. The token is what stands between the first and the second space
    of the header: what follows a second space is not read, and a second
    space right after the first leaves no token. *)
Theorem authenticateToken_second_component (now : Z) (scheme t rest : string) :
  Jwt.has_space scheme = false ->
  Jwt.has_space t = false ->
  authenticateToken env now (Some (scheme +:+ " " +:+ t +:+ " " +:+ rest)) =
    authenticateToken env now (Some ("Bearer " +:+ t))
  /\ authenticateToken env now (Some (scheme +:+ " " +:+ " " +:+ rest)) =
     Respond token_required.
Proof.
  intros Hs Ht. split; [|now apply authenticateToken_two_spaces].
  unfold authenticateToken.
  rewrite (header_token_scheme scheme _ Hs), (split_scheme t rest Ht).
  rewrite bearer, (header_token_scheme "Bearer" t eq_refl), (split_word t Ht).
  reflexivity.
Qed.

(** X6. Behind the gate, a request that is not let through leaves the
    store as it was, with no statement sent, and is answered 401 or 403; a
    request that is let through is the status update itself. *)
Theorem put_appointment_status_guarded (now_jwt now : Z) (authHeader : option string)
    (id : string) (body : Body.transition) (st : db) :
  let answer := put_appointment_status env now_jwt now authHeader id body st in
  match authenticateToken env now_jwt authHeader with
  | Next _ => answer = updateStatus now id body st
  | Respond r => answer = (r, st) /\ (r = token_required \/ r = token_invalid)
  end.
Proof.
  intros answer. unfold answer. rewrite put_appointment_status_gate.
  destruct (authenticateToken env now_jwt authHeader) as [user|r] eqn:Hgate;
    [reflexivity|].
  split; [reflexivity|]. now apply (authenticateToken_refusal now_jwt authHeader).
Qed.

End GateAnyHeader.

(** ** Sessions *)

Section Session.

Context {crypto : Crypto} {contract : CryptoContract crypto} {engine : Pg.Engine}.
Variable env : environment.

(** X7. A token signed as login signs it opens both protected routes at
    every time before 24 hours have passed since its issue, and neither of
    them from then on. *)
Theorem session_opens_routes (issued t now : Z) (p : Jwt.payload) (id : string)
    (body : Body.transition) (st : db) :
  let authHeader := Some ("Bearer " +:+ jwt_sign p (JWT_SECRET env) issued expiresIn) in
  (t < issued + 24 * 3600 ->
     put_appointment_status env t now authHeader id body st = updateStatus now id body st
     /\ listAppointments env t authHeader st = inr (select_appointments st))
  /\ (issued + 24 * 3600 <= t ->
        put_appointment_status env t now authHeader id body st = (token_invalid, st)
        /\ listAppointments env t authHeader st = inl token_invalid).
Proof.
  intros authHeader. unfold authHeader, listAppointments.
  rewrite put_appointment_status_gate.
  rewrite authenticateToken_bearer by apply jwt_sign_compact.
  rewrite jwt_verify_sign. change expiresIn with (24 * 3600).
  split; intros Ht; destruct (Z.ltb_spec t (issued + 24 * 3600)); try lia;
    split; reflexivity.
Qed.

End Session.

(** ** The listing *)

Section ListingFacts.

#[local] Instance newer_first_total : Total newer_first.
Proof. intros a b. unfold newer_first. lia. Qed.

#[local] Instance newer_first_transitive : Transitive newer_first.
Proof. intros a b c. unfold newer_first. lia. Qed.

Lemma select_appointments_rows (st : db) :
  select_appointments st ≡ₚ map_to_list (appointments st) ≫= left_join (services st).
Proof. apply merge_sort_Permutation. Qed.

(** The rows of one appointment: each is that appointment, with the fields
    of a service that has its key, or with none where no service has. *)
Lemma elem_of_left_join (catalog : list Services.row) (a : Z * Appointments.row)
    (row : Listing.row) :
  row ∈ left_join catalog a ->
  (row = unmatched a
   /\ forall s, s ∈ catalog -> Some (Services.id s) <> Appointments.service_id a.2)
  \/ (exists s, s ∈ catalog /\ Some (Services.id s) = Appointments.service_id a.2
                /\ row = matched a s).
Proof.
  unfold left_join.
  destruct (filter _ catalog) as [|s others] eqn:Hmatches.
  - intros ->%list_elem_of_singleton. left. split; [reflexivity|].
    intros s Hs Hkey.
    assert (s ∈ filter (fun s => Some (Services.id s) = Appointments.service_id a.2) catalog)
      as Hin by now apply list_elem_of_filter.
    rewrite Hmatches in Hin. inversion Hin.
  - intros (s' & -> & Hs')%list_elem_of_fmap. right. exists s'.
    rewrite <- Hmatches in Hs'. apply list_elem_of_filter in Hs' as [Hkey Hs'].
    repeat split; assumption.
Qed.

Lemma left_join_inhabited (catalog : list Services.row) (a : Z * Appointments.row) :
  exists row, row ∈ left_join catalog a
              /\ Listing.appointment row =
                 {| Appointments.id := a.1; Appointments.columns := a.2 |}.
Proof.
  unfold left_join. destruct (filter _ catalog) as [|s others].
  - exists (unmatched a). split; [left|reflexivity].
  - exists (matched a s). split; [left|reflexivity].
Qed.

Lemma left_join_appointment (catalog : list Services.row) (a : Z * Appointments.row)
    (row : Listing.row) :
  row ∈ left_join catalog a ->
  Listing.appointment row = {| Appointments.id := a.1; Appointments.columns := a.2 |}.
Proof.
  intros [[-> _]|(s & _ & _ & ->)]%elem_of_left_join; reflexivity.
Qed.

(** X8. The listing holds the appointments of the store and no other
    row, the later created first; a row carries the name, the duration and
    the price of a service that has the key the appointment refers to, and
    carries none of the three when no service has it. *)
Theorem select_appointments_complete (st : db) :
  let rows := select_appointments st in
  (forall id a,
     appointments st !! id = Some a <->
     exists row, row ∈ rows
                 /\ Listing.appointment row =
                    {| Appointments.id := id; Appointments.columns := a |})
  /\ StronglySorted newer_first rows
  /\ (forall row, row ∈ rows ->
        let reference := Appointments.service_id (Appointments.columns (Listing.appointment row)) in
        (Listing.service_name row = None /\ Listing.duration row = None
         /\ Listing.price row = None
         /\ forall s, s ∈ services st -> Some (Services.id s) <> reference)
        \/ (exists s, s ∈ services st /\ Some (Services.id s) = reference
                      /\ Listing.service_name row = Some (Services.name s)
                      /\ Listing.duration row = Some (Services.duration s)
                      /\ Listing.price row = Some (Services.price s))).
Proof.
  intros rows.
  assert (Hrows : forall row, row ∈ rows <->
            exists a, a ∈ map_to_list (appointments st) /\ row ∈ left_join (services st) a).
  { intros row. unfold rows. rewrite select_appointments_rows, list_elem_of_bind.
    split; intros (a & ? & ?); exists a; split; assumption. }
  split; [|split].
  - intros id a. rewrite <- elem_of_map_to_list. split.
    + intros Ha. destruct (left_join_inhabited (services st) (id, a)) as (row & Hrow & Heq).
      exists row. split; [|exact Heq]. apply Hrows. exists (id, a). split; assumption.
    + intros (row & Hrow & Heq). apply Hrows in Hrow as ([id' a'] & Ha & Hrow).
      apply left_join_appointment in Hrow. rewrite Hrow in Heq.
      injection Heq as <- <-. exact Ha.
  - apply StronglySorted_merge_sort; apply _.
  - intros row Hrow reference. apply Hrows in Hrow as (a & _ & Hrow).
    apply elem_of_left_join in Hrow as [[-> Hnone]|(s & Hs & Hkey & ->)].
    + left. repeat split. exact Hnone.
    + right. exists s. repeat split; assumption.
Qed.

Lemma filter_key_unique (catalog : list Services.row) (key : option Z) :
  NoDup (Services.id <$> catalog) ->
  (List.length (filter (fun s => Some (Services.id s) = key) catalog) <= 1)%nat.
Proof.
  induction catalog as [|s catalog IH]; intros Hnd; [cbn; lia|].
  rewrite fmap_cons in Hnd. apply NoDup_cons in Hnd as [Hs Hnd].
  destruct (decide (Some (Services.id s) = key)) as [Hkey|Hkey].
  - rewrite filter_cons_True by exact Hkey.
    rewrite (filter_none (fun s => Some (Services.id s) = key)); [cbn; lia|].
    intros s' Hs' Hkey'. apply Hs. rewrite <- Hkey' in Hkey. injection Hkey as ->.
    now apply list_elem_of_fmap_2.
  - rewrite filter_cons_False by exact Hkey. now apply IH.
Qed.

(** Where the keys of the catalog are unique an appointment has one row. *)
Lemma left_join_single (catalog : list Services.row) (a : Z * Appointments.row) :
  NoDup (Services.id <$> catalog) ->
  exists row, left_join catalog a = [row].
Proof.
  intros Hnd. pose proof (filter_key_unique catalog (Appointments.service_id a.2) Hnd) as Hlen.
  unfold left_join. destruct (filter _ catalog) as [|s [|s' others]]; cbn in *; eauto. lia.
Qed.

Lemma bind_left_join_keys (catalog : list Services.row) (l : list (Z * Appointments.row)) :
  NoDup (Services.id <$> catalog) ->
  (fun row => Appointments.id (Listing.appointment row)) <$> (l ≫= left_join catalog) = l.*1.
Proof.
  intros Hnd. induction l as [|a l IH]; [reflexivity|].
  rewrite bind_cons, fmap_app, IH.
  destruct (left_join_single catalog a Hnd) as (row & Hrow).
  assert (row ∈ left_join catalog a) as Hin by (rewrite Hrow; left).
  apply left_join_appointment in Hin. rewrite Hrow. cbn. now rewrite Hin.
Qed.

(** X9. Where no two services share a key, the listing has one row for
    each appointment: as many rows as the store has appointments, no
    identifier twice. *)
Theorem select_appointments_one_row_each (st : db) :
  catalog_keyed st ->
  let rows := select_appointments st in
  NoDup ((fun row => Appointments.id (Listing.appointment row)) <$> rows)
  /\ List.length rows = size (appointments st).
Proof.
  intros Hkeyed rows.
  assert (Hkeys : (fun row => Appointments.id (Listing.appointment row)) <$> rows
                  ≡ₚ (map_to_list (appointments st)).*1).
  { unfold rows. rewrite select_appointments_rows. now rewrite bind_left_join_keys. }
  split.
  - rewrite Hkeys. apply NoDup_fst_map_to_list.
  - rewrite <- length_map_to_list, <- (length_fmap fst (map_to_list (appointments st))).
    rewrite <- Hkeys. now rewrite length_fmap.
Qed.

End ListingFacts.

Section ListingGate.

Context {crypto : Crypto}.
Variable env : environment.

(** X10. The listing is answered with rows only to a request that the gate
    lets through, and then with the listing of the store; every other
    request is answered 401 or 403 and no row. *)
Theorem listAppointments_guarded (now : Z) (authHeader : option string) (st : db) :
  match listAppointments env now authHeader st with
  | inr rows =>
      rows = select_appointments st
      /\ exists header t user,
           authHeader = Some header
           /\ JS.split " " header !! 1%nat = Some t
           /\ t <> ""
           /\ jwt_verify t (JWT_SECRET env) now = inr user
  | inl r => r = token_required \/ r = token_invalid
  end.
Proof.
  unfold listAppointments.
  destruct (authenticateToken env now authHeader) as [user|r] eqn:Hgate.
  - split; [reflexivity|].
    destruct (authenticateToken_passes env now authHeader user Hgate)
      as (header & t & ? & ? & ? & ?).
    exists header, t, user. repeat split; assumption.
  - now apply (authenticateToken_refusal env now authHeader).
Qed.

End ListingGate.

(** ** Appointments, whatever the request *)

Section AppointmentsAnyRequest.

Context {engine : Pg.Engine}.

(** X11. Creating an appointment never touches a record the store already
    holds, whatever the request and however it ends. *)
Theorem createAppointment_keeps_records (now : Z) (body : Body.booking) (st : db)
    (id : Z) (a : Appointments.row) :
  consistent st ->
  appointments st !! id = Some a ->
  appointments (snd (createAppointment now body st)) !! id = Some a.
Proof.
  intros Hst Ha. unfold createAppointment.
  destruct (required_missing body); [exact Ha|].
  unfold insert_appointment.
  destruct (read_booking _ _ _ _ _ _ _ _ _) as [e|[[[[[[[[cn cp] ce] pn] pb] sid] d] t] nt]];
    [exact Ha|].
  unfold nextval. cbn [receive appointments_id_seq].
  destruct (appointments_id_seq st <=? 2147483647); [|exact Ha].
  cbn. destruct cn, pn, d, t; cbn; try exact Ha.
  destruct (references_service sid _); cbn; [|exact Ha].
  rewrite lookup_insert_ne; [exact Ha|].
  apply (keys_issued st Hst) in Ha. lia.
Qed.

(** X12. Whatever the request, an answer 200 of createAppointment
    returns a record that is now stored under the next value of the
    sequence, pending, with no rejection reason and no proposed changes; with
    any other answer the appointments are the ones before.  The users and
    the services are never touched. *)
Theorem createAppointment_stores_on_success_only (now : Z) (body : Body.booking) (st : db) :
  let answer := createAppointment now body st in
  users (snd answer) = users st
  /\ services (snd answer) = services st
  /\ if Http.status (fst answer) =? 200
     then exists row,
            fst answer =
              respond 200
                (Http.Created "Appuntamento creato con successo"
                   (Some {| Appointments.id := appointments_id_seq st;
                            Appointments.columns := row |}))
            /\ appointments (snd answer) = <[appointments_id_seq st := row]> (appointments st)
            /\ Appointments.status row = Some "pending"
            /\ Appointments.rejection_reason row = None
            /\ Appointments.proposed_changes row = None
     else appointments (snd answer) = appointments st.
Proof.
  intros answer. unfold answer, createAppointment.
  destruct (required_missing body); [repeat split|].
  unfold insert_appointment.
  destruct (read_booking _ _ _ _ _ _ _ _ _) as [e|[[[[[[[[cn cp] ce] pn] pb] sid] d] t] nt]];
    [repeat split|].
  unfold nextval. cbn [receive appointments_id_seq].
  destruct (appointments_id_seq st <=? 2147483647); [|repeat split].
  cbn. destruct cn, pn, d, t; cbn; try (repeat split; fail).
  destruct (references_service sid _); cbn; [|repeat split].
  split; [reflexivity|]. split; [reflexivity|].
  eexists. repeat split.
Qed.

(** X13. Whatever the request, the status update adds no appointment and
    removes none, leaves the booking columns of every appointment as they
    were, and the other tables too; with an answer other than 200 all the
    appointments are the ones before. *)
Theorem updateStatus_keeps_bookings (now : Z) (id : string) (body : Body.transition)
    (st : db) :
  let answer := updateStatus now id body st in
  (forall m, is_Some (appointments (snd answer) !! m) <-> is_Some (appointments st !! m))
  /\ (forall m a a',
        appointments st !! m = Some a -> appointments (snd answer) !! m = Some a' ->
        same_booking a a')
  /\ same_catalog (snd answer) st
  /\ (Http.status (fst answer) <> 200 -> appointments (snd answer) = appointments st).
Proof.
  intros answer. unfold answer. rewrite updateStatus_cases.
  assert (Hsame : forall a, same_booking a a) by (intros a; repeat split).
  assert (Hreceived : forall q,
            (forall m, is_Some (appointments (receive q st) !! m)
                       <-> is_Some (appointments st !! m))
            /\ (forall m a a',
                  appointments st !! m = Some a -> appointments (receive q st) !! m = Some a' ->
                  same_booking a a')
            /\ same_catalog (receive q st) st).
  { intros q. split; [reflexivity|]. split; [|repeat split].
    intros m a a' Ha Ha'. cbn in Ha'. rewrite Ha in Ha'. injection Ha' as <-. apply Hsame. }
  destruct (Pg.bind _ _) as [e|[[[status reason] changes] n]]; cbn [fst snd];
    [destruct (Hreceived UpdateAppointmentStatus) as (? & ? & ?);
     split; [assumption|]; split; [assumption|]; split; [assumption|reflexivity]|].
  destruct (appointments st !! n) as [old|] eqn:Hold; cbn [fst snd];
    [|destruct (Hreceived UpdateAppointmentStatus) as (? & ? & ?);
     split; [assumption|]; split; [assumption|]; split; [assumption|reflexivity]].
  split; [|split; [|split; [repeat split|intros Hstatus; now destruct Hstatus]]].
  - intros m. cbn. destruct (decide (m = n)) as [->|Hne].
    + rewrite lookup_insert_eq, Hold. split; eauto.
    + now rewrite lookup_insert_ne.
  - intros m a a'. cbn. destruct (decide (m = n)) as [->|Hne].
    + rewrite lookup_insert_eq, Hold. intros [= <-] [= <-]. repeat split.
    + rewrite lookup_insert_ne by congruence. intros Ha Ha'.
      rewrite Ha in Ha'. injection Ha' as <-. apply Hsame.
Qed.

End AppointmentsAnyRequest.

(** ** Identifiers as text *)

Section IdentifierText.

Lemma digit_value_pretty (n : N) :
  (n < 10)%N -> Pg.digit_value (pretty_N_char n) = Some (Z.of_N n).
Proof.
  intros Hn. assert (Hnat : (N.to_nat n < 10)%nat) by lia.
  rewrite <- (N2Nat.id n).
  destruct (N.to_nat n) as [|[|[|[|[|[|[|[|[|[|k]]]]]]]]]]; try reflexivity. lia.
Qed.

(** Reading the digits of a numeral as written by [toString]. *)
Lemma digits_pretty_go (x : N) :
  (0 < x)%N ->
  forall (s : string) (acc : Z) (seen : bool),
    exists acc', Pg.digits seen acc (pretty_N_go x s) = Pg.digits true acc' s
                 /\ (acc = 0 -> acc' = Z.of_N x).
Proof.
  induction (N.lt_wf_0 x) as [x _ IH]. intros Hx s acc seen.
  rewrite pretty_N_go_step by exact Hx.
  assert (Hdigit := digit_value_pretty (x `mod` 10)%N ltac:(apply N.mod_lt; lia)).
  destruct (decide (x `div` 10 = 0)%N) as [Hsmall|Hbig].
  - rewrite Hsmall, pretty_N_go_0. cbn [Pg.digits]. rewrite Hdigit.
    eexists. split; [reflexivity|]. intros ->.
    assert (x = 10 * (x `div` 10) + x `mod` 10)%N as Hx10 by (apply N.div_mod; lia).
    rewrite Hsmall in Hx10. lia.
  - assert (x `div` 10 < x)%N as Hless by (apply N.div_lt; lia).
    assert (0 < x `div` 10)%N as Hpos by (apply N.neq_0_lt_0; exact Hbig).
    destruct (IH (x `div` 10)%N Hless Hpos
                (String (pretty_N_char (x `mod` 10)) s) acc seen) as (acc1 & -> & Hacc).
    cbn [Pg.digits]. rewrite Hdigit.
    eexists. split; [reflexivity|]. intros E. rewrite (Hacc E).
    assert (x = 10 * (x `div` 10) + x `mod` 10)%N as Hx10 by (apply N.div_mod; lia).
    lia.
Qed.

(** A numeral begins with a digit. *)
Lemma pretty_go_head (x : N) :
  (0 < x)%N ->
  forall s, exists c rest d, pretty_N_go x s = String c rest /\ Pg.digit_value c = Some d.
Proof.
  induction (N.lt_wf_0 x) as [x _ IH]. intros Hx s.
  rewrite pretty_N_go_step by exact Hx.
  destruct (decide (x `div` 10 = 0)%N) as [Hsmall|Hbig].
  - rewrite Hsmall, pretty_N_go_0. do 3 eexists. split; [reflexivity|].
    apply digit_value_pretty, N.mod_lt. lia.
  - assert (x `div` 10 < x)%N as Hless by (apply N.div_lt; lia).
    assert (0 < x `div` 10)%N as Hpos by (apply N.neq_0_lt_0; exact Hbig).
    now apply IH.
Qed.

Lemma digit_not_sign (c : ascii) (d : Z) :
  Pg.digit_value c = Some d ->
  Pg.is_space c = false /\ c <> "-"%char /\ c <> "+"%char.
Proof.
  destruct c as [[] [] [] [] [] [] [] []]; cbn; intros E; try discriminate E;
    repeat split; discriminate.
Qed.

Lemma int4in_digits (text : string) (c : ascii) (rest : string) (d m : Z) :
  text = String c rest ->
  Pg.digit_value c = Some d ->
  Pg.digits false 0 text = Some m ->
  -2147483648 <= m <= 2147483647 ->
  Pg.int4in text = inr m.
Proof.
  intros -> Hc Hm Hrange. destruct (digit_not_sign c d Hc) as (Hspace & Hminus & Hplus).
  unfold Pg.int4in. cbn [Pg.skip_spaces]. rewrite Hspace.
  assert (Hle : (-2147483648 <=? m) && (m <=? 2147483647) = true).
  { apply andb_true_intro. split; apply Z.leb_le; lia. }
  destruct c as [[] [] [] [] [] [] [] []]; try congruence;
    rewrite Hm; cbn; rewrite Hle; reflexivity.
Qed.

Lemma int4in_minus (text : string) (m : Z) :
  Pg.digits false 0 text = Some m ->
  -2147483648 <= - m <= 2147483647 ->
  Pg.int4in (String "-" text) = inr (- m).
Proof.
  intros Hm Hrange. unfold Pg.int4in.
  change (Pg.skip_spaces (String "-" text)) with (String "-" text).
  cbv beta iota. rewrite Hm. cbn.
  assert (Hle : (-2147483648 <=? - m) && (- m <=? 2147483647) = true).
  { apply andb_true_intro. split; apply Z.leb_le; lia. }
  rewrite Hle. reflexivity.
Qed.

Lemma pretty_Z_pos (p : positive) : pretty (Z.pos p) = pretty_N_go (N.pos p) "".
Proof. reflexivity. Qed.

Lemma pretty_Z_neg (p : positive) :
  pretty (Z.neg p) = String "-" (pretty_N_go (N.pos p) "").
Proof. reflexivity. Qed.

(** The numeral of a positive key reads as that key. *)
Lemma int4in_positive (p : positive) :
  Z.pos p <= 2147483647 ->
  Pg.int4in (JS.number_to_string (Z.pos p)) = inr (Z.pos p).
Proof.
  intros Hp. unfold JS.number_to_string. rewrite pretty_Z_pos.
  destruct (pretty_go_head (N.pos p) ltac:(lia) "") as (c & rest & d & Htext & Hc).
  destruct (digits_pretty_go (N.pos p) ltac:(lia) "" 0 false) as (m & Hm & Hacc).
  rewrite (Hacc eq_refl) in Hm.
  apply (int4in_digits _ c rest d _ Htext Hc); [|lia].
  rewrite Hm. reflexivity.
Qed.

(** X14. An integer within 32 bits, written as JavaScript writes a number
    and read as the INTEGER column reads a parameter, is that integer. *)
Theorem int4in_number_to_string (n : Z) :
  -2147483648 <= n <= 2147483647 ->
  Pg.int4in (JS.number_to_string n) = inr n.
Proof.
  intros Hn. destruct n as [|p|p].
  - reflexivity.
  - apply int4in_positive. lia.
  - unfold JS.number_to_string. rewrite pretty_Z_neg.
    destruct (digits_pretty_go (N.pos p) ltac:(lia) "" 0 false) as (m & Hm & Hacc).
    rewrite (Hacc eq_refl) in Hm.
    change (Z.neg p) with (- Z.of_N (N.pos p)).
    apply int4in_minus; [|cbn; lia].
    rewrite Hm. reflexivity.
Qed.

End IdentifierText.

(** ** From the answer of a booking to its update *)

Section CreatedThenUpdated.

Context {engine : Pg.Engine}.

(** A booking answered 200 is stored under the identifier in the answer,
    the next value of the sequence. *)
Lemma createAppointment_answered (now : Z) (body : Body.booking) (st : db)
    (message : string) (id : Z) (row : Appointments.row) :
  fst (createAppointment now body st) =
    respond 200
      (Http.Created message (Some {| Appointments.id := id; Appointments.columns := row |})) ->
  id = appointments_id_seq st
  /\ appointments (snd (createAppointment now body st)) !! id = Some row.
Proof.
  unfold createAppointment.
  destruct (required_missing body); [discriminate|].
  unfold insert_appointment.
  destruct (read_booking _ _ _ _ _ _ _ _ _) as [e|[[[[[[[[cn cp] ce] pn] pb] sid] d] t] nt]];
    [discriminate|].
  unfold nextval. cbn [receive appointments_id_seq].
  destruct (appointments_id_seq st <=? 2147483647); [|discriminate].
  cbn. destruct cn, pn, d, t; cbn; try discriminate.
  destruct (references_service sid _); cbn; [|discriminate].
  intros [= _ <- <-]. split; [reflexivity|]. apply lookup_insert_eq.
Qed.

(** X15. The identifier that createAppointment returns, written as a
    number in the path of the status update, names the record just created:
    with a status string of at most 50 characters and without a NUL
    character, a rejection reason that the TEXT column accepts (none, or
    one without a NUL character) and proposed changes that the JSONB column
    accepts, the update answers 200 with that record, its status fields set
    and its booking as created.  (The sequence is positive and within the 32
    bits of an INTEGER.) *)
Theorem created_appointment_is_updated (now now' : Z) (body : Body.booking)
    (change : Body.transition) (st : db) (message : string) (id : Z)
    (row : Appointments.row) (s : string) (reason changes : option string) :
  fst (createAppointment now body st) =
    respond 200
      (Http.Created message (Some {| Appointments.id := id; Appointments.columns := row |})) ->
  0 < appointments_id_seq st <= 2147483647 ->
  Body.status change = Some (JS.JStr s) ->
  Pg.has_nul s = false ->
  (String.length s <= 50)%nat ->
  Pg.nullable Pg.text_in (Pg.prepareValue (Body.rejectionReason change)) = inr reason ->
  read_jsonb (JS.JSON_stringify (Body.proposedChanges change)) = inr changes ->
  fst (updateStatus now' (JS.number_to_string id) change
         (snd (createAppointment now body st))) =
  respond 200
    (Http.Appointment
       {| Appointments.id := id;
          Appointments.columns :=
            set_status (Some s) (Pg.prepareValue (Body.rejectionReason change)) changes
              now' row |}).
Proof.
  intros Hanswer Hseq Hstatus Hclean Hlen Hreason Hchanges.
  apply createAppointment_answered in Hanswer as [-> Hstored].
  pose proof (text_in_verbatim _ _ Hreason) as <-.
  rewrite updateStatus_cases, Hstatus. cbn [Pg.prepareValue Pg.nullable].
  destruct (appointments_id_seq st) as [|key|key] eqn:Hkey; try lia.
  rewrite (varchar_in_fits 50 s Hclean Hlen). cbn [Pg.bind].
  rewrite Hreason. cbn [Pg.bind].
  rewrite Hchanges, (int4in_positive key (proj2 Hseq)).
  cbn [Pg.bind Pg.ok]. rewrite Hstored. reflexivity.
Qed.

End CreatedThenUpdated.

(** ** What the columns hold, along the life of the store *)

Section Columns.

Context {crypto : Crypto} {engine : Pg.Engine}.
Variable env : environment.

Lemma substring_width (n : nat) (s : string) :
  (String.length (String.substring 0 n s) <= n)%nat.
Proof.
  revert s. induction n as [|n IH]; intros [|c s]; cbn; try lia.
  specialize (IH s). lia.
Qed.

(** What a VARCHAR(n) column takes is within [n] characters. *)
Lemma varchar_in_width (n : nat) (s stored : string) :
  Pg.varchar_in n s = inr stored -> (String.length stored <= n)%nat.
Proof.
  unfold Pg.varchar_in, Pg.text_in.
  destruct (Pg.has_nul s); cbn; [discriminate|].
  destruct (Nat.leb_spec (String.length s) n) as [Hle|_]; [now intros [= <-]|].
  destruct (Pg.all_spaces _); [|discriminate].
  intros [= <-]. apply substring_width.
Qed.

Lemma nullable_varchar_width (n : nat) (p r : option string) (stored : string) :
  Pg.nullable (Pg.varchar_in n) p = inr r -> r = Some stored ->
  (String.length stored <= n)%nat.
Proof.
  destruct p as [s|]; unfold Pg.nullable; [|intros [= <-] E; discriminate E].
  destruct (Pg.varchar_in n s) as [|s'] eqn:Hs; cbn; [discriminate|].
  intros [= <-] [= <-]. now apply (varchar_in_width n s).
Qed.

Lemma createAppointment_services (now : Z) (body : Body.booking) (st : db) :
  services (snd (createAppointment now body st)) = services st.
Proof.
  unfold createAppointment. destruct (required_missing body); [reflexivity|].
  unfold insert_appointment.
  destruct (read_booking _ _ _ _ _ _ _ _ _) as [e|[[[[[[[[cn cp] ce] pn] pb] sid] d] t] nt]];
    [reflexivity|].
  unfold nextval. cbn [receive appointments_id_seq].
  destruct (appointments_id_seq st <=? 2147483647); [|reflexivity].
  cbn. destruct cn, pn, d, t; cbn; try reflexivity.
  destruct (references_service sid _); reflexivity.
Qed.

Lemma updateStatus_services (now : Z) (id : string) (body : Body.transition) (st : db) :
  services (snd (updateStatus now id body st)) = services st.
Proof.
  rewrite updateStatus_cases.
  destruct (Pg.bind _ _) as [e|[[[status reason] changes] n]]; [reflexivity|].
  destruct (appointments st !! n); reflexivity.
Qed.

Lemma serve_services (r : request) (st : db) :
  services (snd (serve env r st)) = services st.
Proof.
  destruct r as [now body| |now body|now_jwt now authHeader id body]; cbn.
  - destruct (login_tables env now body st) as [->| ->]; reflexivity.
  - reflexivity.
  - apply createAppointment_services.
  - rewrite put_appointment_status_gate.
    destruct (authenticateToken env now_jwt authHeader); [|reflexivity].
    apply updateStatus_services.
Qed.

Lemma createAppointment_well_typed (now : Z) (body : Body.booking) (st : db) :
  well_typed st -> well_typed (snd (createAppointment now body st)).
Proof.
  intros Hst id a. rewrite createAppointment_services.
  unfold createAppointment.
  destruct (required_missing body) eqn:Hpresent; [apply Hst|].
  unfold insert_appointment.
  destruct (read_booking _ _ _ _ _ _ _ _ _)
    as [e|[[[[[[[[cn cp] ce] pn] pb] sid] d] t] nt]] eqn:Hread; [apply Hst|].
  unfold nextval. cbn [receive appointments_id_seq].
  destruct (appointments_id_seq st <=? 2147483647); [|apply Hst].
  cbn. destruct cn as [cn|], pn as [pn|], d as [d|], t as [t|]; cbn; try apply Hst.
  destruct (references_service sid _) eqn:Href; cbn; [|apply Hst].
  destruct (decide (id = appointments_id_seq st)) as [->|Hne];
    [|rewrite lookup_insert_ne by congruence; apply Hst].
  rewrite lookup_insert_eq. intros [= <-].
  unfold required_missing in Hpresent.
  repeat (apply orb_false_elim in Hpresent as [? Hpresent]).
  assert (exists text, Pg.prepareValue (Body.serviceId body) = Some text) as [text Htext].
  { apply prepareValue_truthy. now apply negb_false_iff. }
  unfold read_booking in Hread. invert_reads Hread.
  injection Hread as -> -> -> -> -> -> -> -> ->.
  rewrite Htext in *.
  match goal with
  | E : Pg.nullable Pg.int4in (Some text) = inr sid |- _ =>
      apply nullable_present in E as [n ->]
  end.
  cbn in Href. apply existsb_exists in Href as (srv & Hsrv & Hkey).
  apply Z.eqb_eq in Hkey. apply list_elem_of_In in Hsrv.
  split; cbn;
    try (intros s' ->);
    try match goal with
        | H : Pg.nullable (Pg.varchar_in ?n) _ = inr (Some ?x)
          |- (String.length ?x <= _)%nat =>
            exact (nullable_varchar_width n _ _ x H eq_refl)
        end.
  - intros s' [= <-]. cbn. lia.
  - exists srv. split; [exact Hsrv|now rewrite Hkey].
Qed.

Lemma updateStatus_well_typed (now : Z) (id : string) (body : Body.transition) (st : db) :
  well_typed st -> well_typed (snd (updateStatus now id body st)).
Proof.
  intros Hst m a. rewrite updateStatus_services, updateStatus_cases.
  destruct (Pg.nullable (Pg.varchar_in 50) _) as [e|status] eqn:Hstatus; [apply Hst|].
  cbn [Pg.bind]. destruct (Pg.nullable Pg.text_in _) as [e|reason]; [apply Hst|].
  cbn [Pg.bind]. destruct (read_jsonb _) as [e|changes]; [apply Hst|].
  cbn [Pg.bind]. destruct (Pg.int4in id) as [e|n]; [apply Hst|].
  cbn [Pg.bind Pg.ok]. destruct (appointments st !! n) as [old|] eqn:Hold; [|apply Hst].
  cbn. destruct (decide (m = n)) as [->|Hne];
    [|rewrite lookup_insert_ne by congruence; apply Hst].
  rewrite lookup_insert_eq. intros [= <-].
  destruct (Hst n old Hold) as [Hcn Hcp Hce Hpn Hpb _ Hsrv].
  split; cbn; try assumption.
  intros s' E. now apply (nullable_varchar_width 50 _ _ s' Hstatus).
Qed.

Lemma serve_well_typed (r : request) (st : db) :
  well_typed st -> well_typed (snd (serve env r st)).
Proof.
  intros Hst. destruct r as [now body| |now body|now_jwt now authHeader id body]; cbn.
  - destruct (login_tables env now body st) as [->| ->]; exact Hst.
  - exact Hst.
  - now apply createAppointment_well_typed.
  - rewrite put_appointment_status_gate.
    destruct (authenticateToken env now_jwt authHeader); [|exact Hst].
    now apply updateStatus_well_typed.
Qed.

(** X17. In every store the server can be in, each appointment refers to
    a service of the catalog, its character columns are within their
    widths (255 for the names and the email, 20 for the phone, 50 for the
    status), and no two services share a key. *)
Theorem reachable_well_typed (st : db) :
  reachable env st -> well_typed st /\ catalog_keyed st.
Proof.
  induction 1 as [now|r st _ [IH Hkeys]].
  - split.
    + intros id a E. cbn in E. now rewrite lookup_empty in E.
    + unfold catalog_keyed. cbn. apply (bool_decide_unpack _). vm_compute. exact I.
  - split; [now apply serve_well_typed|].
    unfold catalog_keyed. now rewrite serve_services.
Qed.

End Columns.

(** ** The seeded administrator and the signing secret *)

Section Seed.

Context {crypto : Crypto} {contract : CryptoContract crypto}.
Variable env : environment.

(** X18. On the seeded store the administrator logs in with the seeded
    email and password, and the gate lets the token through, as user 1, at
    every time before 24 hours have passed since the login. *)
Theorem seeded_admin_session (seeded_at now t : Z) :
  t < now + 24 * 3600 ->
  exists token,
    fst (login env now
           {| Body.email := Some (JS.JStr "admin@toelettatura.com");
              Body.password := Some (JS.JStr "admin123") |}
           (initDatabase seeded_at None)) =
    respond 200
      (Http.LoggedIn "Login effettuato con successo" token 1 "admin@toelettatura.com"
         (Some "admin"))
    /\ authenticateToken env t (Some ("Bearer " +:+ token)) =
       Next {| Jwt.claims := {| Jwt.userId := 1; Jwt.email := "admin@toelettatura.com" |};
               Jwt.iat := now; Jwt.exp := now + 24 * 3600 |}.
Proof.
  intros Ht. eexists. split.
  - rewrite login_strings by (discriminate || reflexivity).
    unfold initDatabase. cbn [users]. rewrite filter_cons_True by reflexivity.
    cbn [Users.password]. rewrite bcrypt_compare_hash. reflexivity.
  - cbn [Users.id Users.email].
    rewrite authenticateToken_bearer by apply jwt_sign_compact.
    rewrite jwt_verify_sign. change expiresIn with (24 * 3600).
    destruct (Z.ltb_spec t (now + 24 * 3600)); [reflexivity|lia].
Qed.

(** X19. The signing secret is never empty: a JWT_SECRET that is set and
    not empty is the secret, and an empty one counts as unset, so that a
    token signed where it is unset is let through where it is empty. *)
Theorem JWT_SECRET_fallback (p : Jwt.payload) (issued t : Z) :
  JWT_SECRET env <> ""
  /\ (forall secret, env_JWT_SECRET env = Some secret -> secret <> "" ->
        JWT_SECRET env = secret)
  /\ (t < issued + expiresIn ->
      authenticateToken {| env_JWT_SECRET := Some "" |} t
        (Some ("Bearer " +:+
               jwt_sign p (JWT_SECRET {| env_JWT_SECRET := None |}) issued expiresIn)) =
      Next {| Jwt.claims := p; Jwt.iat := issued; Jwt.exp := issued + expiresIn |}).
Proof.
  split; [|split].
  - unfold JWT_SECRET. destruct (env_JWT_SECRET env) as [secret|]; [|discriminate].
    destruct (String.eqb_spec secret ""); [discriminate|assumption].
  - intros secret E Hne. unfold JWT_SECRET. rewrite E.
    now destruct (String.eqb_spec secret "").
  - intros Ht. rewrite authenticateToken_bearer by apply jwt_sign_compact.
    change (JWT_SECRET {| env_JWT_SECRET := Some "" |})
      with (JWT_SECRET {| env_JWT_SECRET := None |}).
    rewrite jwt_verify_sign.
    destruct (Z.ltb_spec t (issued + expiresIn)); [reflexivity|lia].
Qed.

End Seed.

(** ** Worked requests *)

Lemma seeded_consistent : consistent Run.seeded.
Proof. apply initDatabase_consistent. Qed.

Lemma booked_consistent : consistent Run.booked.
Proof. apply createAppointment_consistent, seeded_consistent. Qed.

(** The administrator's token under the Basic scheme, and the word Bearer
    alone. *)
Lemma authenticateToken_any_scheme_witness :
  authenticateToken (crypto := Sample.crypto) Sample.env 6000
    (Some ("Basic " +:+ Run.admin_token)) =
  authenticateToken (crypto := Sample.crypto) Sample.env 6000
    (Some ("Bearer " +:+ Run.admin_token))
  /\ authenticateToken (crypto := Sample.crypto) Sample.env 6000 (Some "Bearer") =
     Respond token_required.
Proof.
  destruct (authenticateToken_any_scheme (crypto := Sample.crypto) Sample.env 6000
              "Basic" Run.admin_token "Bearer" eq_refl eq_refl) as (Hsame & _ & Hword).
  split; [exact Hsame|exact Hword].
Defined.

(** C3 at a request without an Authorization header: the answer is 401,
    which is Unauthorized and not Forbidden. *)
Lemma missing_token_is_not_forbidden :
  authenticateToken (crypto := Sample.crypto) Sample.env 6000 None = Respond token_required
  /\ Http.outcome_of token_required = Http.Unauthorized
  /\ Http.outcome_of token_required <> Http.Forbidden.
Proof. split; [reflexivity|]. split; [reflexivity|discriminate]. Qed.

(** A token that is not one, and the administrator's token 24 hours after
    its issue. *)
Lemma authenticateToken_rejections_witness :
  authenticateToken (crypto := Sample.crypto) Sample.env 6000 (Some "Bearer garbage") =
    Respond token_invalid
  /\ authenticateToken (crypto := Sample.crypto) Sample.env (5000 + 86400)
       (Some ("Bearer " +:+ Run.admin_token)) = Respond token_invalid.
Proof.
  destruct (authenticateToken_rejections (contract := sample_contract) Sample.env 6000)
    as (_ & _ & Hinvalid & _).
  destruct (authenticateToken_rejections (contract := sample_contract) Sample.env
              (5000 + 86400)) as (_ & _ & _ & Hexpired & _).
  split.
  - apply (Hinvalid "Bearer" "garbage" Jwt.jwt_malformed eq_refl);
      [split; [discriminate|reflexivity]|reflexivity].
  - apply Hexpired. unfold expiresIn. lia.
Defined.

(** The seeded administrator logs in at 5000 and presents the token at
    6000. *)
Lemma login_issues_valid_token_witness :
  exists token,
    issued_token (fst (login (crypto := Sample.crypto) Sample.env 5000
      {| Body.email := Some (JS.JStr "admin@toelettatura.com");
         Body.password := Some (JS.JStr "admin123") |} Run.seeded)) = Some token
    /\ authenticateToken (crypto := Sample.crypto) Sample.env 6000
         (Some ("Bearer " +:+ token)) =
       Next {| Jwt.claims := {| Jwt.userId := 1; Jwt.email := "admin@toelettatura.com" |};
               Jwt.iat := 5000; Jwt.exp := 5000 + 24 * 3600 |}.
Proof.
  destruct (login_issues_valid_token (contract := sample_contract) Sample.env 5000
              Run.seeded Run.admin "admin123" seeded_consistent)
    as (token & Hlogin & Hvalid & _).
  - left.
  - discriminate.
  - discriminate.
  - reflexivity.
  - exists token. split.
    + change (Users.email Run.admin) with "admin@toelettatura.com" in Hlogin.
      now rewrite Hlogin.
    + apply (Hvalid 6000). lia.
Defined.

(** A wrong password for the administrator, and an email nobody has. *)
Lemma login_rejects_bad_credentials_witness :
  Http.outcome_of (fst (login (crypto := Sample.crypto) Sample.env 5000
    {| Body.email := Some (JS.JStr "admin@toelettatura.com");
       Body.password := Some (JS.JStr "wrong") |} Run.seeded)) = Http.Unauthorized
  /\ Http.outcome_of (fst (login (crypto := Sample.crypto) Sample.env 5000
       {| Body.email := Some (JS.JStr "nobody@toelettatura.com");
          Body.password := Some (JS.JStr "admin123") |} Run.seeded)) = Http.Unauthorized.
Proof.
  split.
  - apply (login_rejects_bad_credentials (crypto := Sample.crypto) Sample.env 5000
             Run.seeded "admin@toelettatura.com" "wrong" seeded_consistent);
      [discriminate|discriminate|reflexivity|].
    right. exists Run.admin. split; [left|]. split; reflexivity.
  - apply (login_rejects_bad_credentials (crypto := Sample.crypto) Sample.env 5000
             Run.seeded "nobody@toelettatura.com" "admin123" seeded_consistent);
      [discriminate|discriminate|reflexivity|].
    left. intros u Hu. apply list_elem_of_singleton in Hu as ->. discriminate.
Defined.

(** C7 at an email that holds the NUL character, on the seeded store, where
    the one email is the administrator's: no stored user has the email
    sent, the lookup fails on its parameter, and the answer is the 500 of a
    failed login, not Unauthorized. *)
Lemma nul_email_is_not_unauthorized :
  Users.email <$> users Run.seeded = ["admin@toelettatura.com"]
  /\ Run.nul_email <> "admin@toelettatura.com"
  /\ login (crypto := Sample.crypto) Sample.env 5000
       {| Body.email := Some (JS.JStr Run.nul_email);
          Body.password := Some (JS.JStr "admin123") |} Run.seeded =
     (respond 500 (Http.Error "Errore durante il login"),
      receive SelectUserByEmail Run.seeded)
  /\ Http.outcome_of (respond 500 (Http.Error "Errore durante il login")) =
     Http.InternalError
  /\ Http.InternalError <> Http.Unauthorized.
Proof.
  split; [reflexivity|]. split; [discriminate|]. split; [reflexivity|].
  split; [reflexivity|discriminate].
Qed.

(** The seeded catalog, listed. *)
Lemma listServices_active_by_name_witness :
  exists rows,
    fst (listServices (engine := Sample.engine) Run.seeded) =
      respond 200 (Http.ServiceList rows)
    /\ Services.name <$> rows =
       ["Bagno e Spazzolatura"; "Pacchetto Completo"; "Pulizia Orecchie";
        "Taglio Completo"; "Taglio Unghie"]
    /\ StronglySorted (name_le (engine := Sample.engine)) rows.
Proof.
  destruct (listServices_active_by_name (collation := sample_collation) Run.seeded)
    as (rows & Hanswer & _ & Hsorted & _).
  exists rows. split; [now rewrite Hanswer|]. split; [|exact Hsorted].
  injection Hanswer as <-. reflexivity.
Defined.

(** A booking without the pet name. *)
Lemma createAppointment_missing_field_witness :
  fst (createAppointment (engine := Sample.engine) 2000 Run.nameless Run.seeded) =
    missing_fields
  /\ snd (createAppointment (engine := Sample.engine) 2000 Run.nameless Run.seeded) =
     Run.seeded.
Proof.
  destruct (createAppointment_missing_field (engine := Sample.engine) 2000
              Run.nameless Run.seeded) as (Hanswer & _ & Hstore & _).
  - right. left. reflexivity.
  - split; [exact Hanswer|exact Hstore].
Defined.

(** C4 at a request for service 999 on the seeded store, where the catalog
    holds services 1 to 5: every required field is present, and the answer
    is the 500 of a failed insert, with no record stored. *)
Lemma dangling_service_is_refused :
  required_missing Run.dangling = false
  /\ Http.outcome_of
       (fst (createAppointment (engine := Sample.engine) 2000 Run.dangling Run.seeded)) =
     Http.InternalError
  /\ appointments
       (snd (createAppointment (engine := Sample.engine) 2000 Run.dangling Run.seeded)) =
     appointments Run.seeded.
Proof. repeat split. Qed.

(** The booking for Fido on the seeded store. *)
Lemma createAppointment_pending_witness :
  exists row,
    appointments Run.booked !! 1 = Some row
    /\ Appointments.status row = Some "pending"
    /\ Appointments.rejection_reason row = None
    /\ Appointments.proposed_changes row = None
    /\ appointments Run.seeded !! 1 = None.
Proof.
  destruct (createAppointment_pending (engine := Sample.engine) 2000 Run.fido Run.seeded
              (Some "Mario Rossi") None None (Some "Fido") None (Some 1)
              (Some "2024-06-01") (Some "10:00:00") None
              seeded_consistent eq_refl eq_refl)
    as (row & _ & Hstatus & Hreason & Hchanges & _ & _ & _ & Hfresh & Hstored & _).
  - cbn. lia.
  - reflexivity.
  - exists row. unfold Run.booked. rewrite Hstored.
    split; [apply lookup_insert_eq|]. repeat split; assumption.
Defined.

(** C1 at a status of 51 characters for the existing appointment 1: the
    update fails with 500 and the stored status is still 'pending'. *)
Lemma overlong_status_is_not_stored :
  Pg.int4in "1" = inr 1
  /\ Appointments.status <$> appointments Run.booked !! 1 = Some (Some "pending")
  /\ String.length Run.overlong = 51%nat
  /\ Http.outcome_of
       (fst (updateStatus (engine := Sample.engine) 3000 "1" Run.overlong_status Run.booked)) =
     Http.InternalError
  /\ Appointments.status <$>
       appointments
         (snd (updateStatus (engine := Sample.engine) 3000 "1" Run.overlong_status Run.booked))
         !! 1 = Some (Some "pending").
Proof. repeat split. Qed.

(** The store with appointment 1, seeded at 1000 and booked at 2000. *)
Lemma booked_timed :
  timed (crypto := Sample.crypto) (engine := Sample.engine) Sample.env 2000 Run.booked.
Proof.
  apply (timed_served Sample.env 1000 2000 (PostAppointment 2000 Run.fido) Run.seeded).
  - apply timed_seeded.
  - lia.
  - reflexivity.
Qed.

(** Appointment 1, booked at 2000, rejected at 3000. *)
Lemma updateStatus_sets_status_columns_witness :
  exists new,
    appointments
      (snd (updateStatus (engine := Sample.engine) 3000 "1" Run.reject Run.booked)) !! 1 =
    Some new
    /\ Appointments.status new = Some "rejected"
    /\ Appointments.rejection_reason new = Some "Agenda piena"
    /\ Appointments.proposed_changes new = None
    /\ Appointments.updated_at new = 3000
    /\ Appointments.updated_at Run.pending <= Appointments.updated_at new
    /\ Appointments.pet_name new = "Fido".
Proof.
  destruct (updateStatus_sets_status_columns (crypto := Sample.crypto)
              (engine := Sample.engine) Sample.env 3000 "1" 1
              Run.booked Run.pending Run.reject "rejected" (Some "Agenda piena") None)
    as (new & _ & Hstored & Hstatus & Hreason & Hchanges & Hat & Hlater & Hsame & _).
  - reflexivity.
  - reflexivity.
  - reflexivity.
  - reflexivity.
  - cbn. lia.
  - reflexivity.
  - reflexivity.
  - exists new. rewrite Hstored. split; [apply lookup_insert_eq|].
    repeat (split; [assumption|]).
    split; [apply (Hlater 2000 booked_timed); lia|].
    destruct Hsame as (_ & _ & _ & Hpet & _). rewrite <- Hpet. reflexivity.
Defined.

(** C9 at an update of the rejected appointment 1 that leaves the
    rejection reason out and carries a status of 51 characters: the update
    fails and the stored reason is kept. *)
Lemma omitted_reason_is_kept_when_update_fails :
  Appointments.rejection_reason <$> appointments Run.rejected !! 1 =
    Some (Some "Agenda piena")
  /\ Body.rejectionReason Run.overlong_status = None
  /\ Http.outcome_of
       (fst (updateStatus (engine := Sample.engine) 4000 "1" Run.overlong_status Run.rejected)) =
     Http.InternalError
  /\ Appointments.rejection_reason <$>
       appointments
         (snd (updateStatus (engine := Sample.engine) 4000 "1" Run.overlong_status
                 Run.rejected)) !! 1 = Some (Some "Agenda piena").
Proof. repeat split. Qed.

(** The rejected appointment 1 confirmed, reason left out: the reason is
    gone. *)
Lemma updateStatus_omitted_is_null_witness :
  exists new,
    appointments
      (snd (updateStatus (engine := Sample.engine) 4000 "1" Run.confirm Run.rejected)) !! 1 =
    Some new
    /\ Appointments.status new = Some "confirmed"
    /\ Appointments.rejection_reason new = None
    /\ Appointments.proposed_changes new = None.
Proof.
  destruct (updateStatus_omitted_is_null (engine := Sample.engine) 4000 "1" 1
              Run.rejected
              (set_status (Some "rejected") (Some "Agenda piena") None 3000 Run.pending)
              Run.confirm eq_refl eq_refl eq_refl)
    as (new & Hstored & Hanswer & Hreason & Hchanges).
  exists new. split; [exact Hstored|]. split; [|split; [now apply Hreason|now apply Hchanges]].
  vm_compute in Hstored. injection Hstored as <-. reflexivity.
Defined.

(** C6 at the ids "abc" and "99999999999" on the store with appointment 1:
    neither reads as a key, so neither names an appointment, and the
    answer is 500, not NotFound. *)
Lemma malformed_id_is_not_not_found :
  Pg.int4in "abc" = inl Pg.invalid_text_representation
  /\ Http.outcome_of
       (fst (updateStatus (engine := Sample.engine) 3000 "abc" Run.confirm Run.booked)) =
     Http.InternalError
  /\ Pg.int4in "99999999999" = inl Pg.numeric_value_out_of_range
  /\ Http.outcome_of
       (fst (updateStatus (engine := Sample.engine) 3000 "99999999999" Run.confirm
               Run.booked)) = Http.InternalError
  /\ Http.InternalError <> Http.NotFound.
Proof. repeat split. discriminate. Qed.

(** Appointment 7 does not exist. *)
Lemma updateStatus_unknown_id_witness :
  fst (updateStatus (engine := Sample.engine) 3000 "7" Run.confirm Run.booked) = not_found
  /\ appointments
       (snd (updateStatus (engine := Sample.engine) 3000 "7" Run.confirm Run.booked)) =
     appointments Run.booked.
Proof.
  destruct (updateStatus_unknown_id (engine := Sample.engine) 3000 "7" 7 Run.booked
              Run.confirm (Some "confirmed") None None eq_refl eq_refl eq_refl eq_refl
              eq_refl)
    as (Hanswer & _ & Hstore & _).
  split; [exact Hanswer|exact Hstore].
Defined.

(** ** Further worked requests *)

Lemma booked_reachable :
  reachable (crypto := Sample.crypto) (engine := Sample.engine) Sample.env Run.booked.
Proof.
  exact (reachable_served Sample.env (PostAppointment 2000 Run.fido) Run.seeded
           (reachable_seeded Sample.env 1000)).
Qed.

(** A login without a password. *)
Lemma login_missing_field_witness :
  login (crypto := Sample.crypto) Sample.env 5000
    {| Body.email := Some (JS.JStr "admin@toelettatura.com"); Body.password := None |}
    Run.seeded =
  (respond 400 (Http.Error "Email e password richiesti"), Run.seeded).
Proof.
  apply (login_missing_field (crypto := Sample.crypto) Sample.env 5000
           {| Body.email := Some (JS.JStr "admin@toelettatura.com");
              Body.password := None |} Run.seeded).
  right. reflexivity.
Defined.

(** The token of the administrator's login stands on a stored user. *)
Lemma login_token_only_on_match_witness :
  exists u, u ∈ users Run.seeded
            /\ bcrypt_compare (Crypto := Sample.crypto) "admin123" (Users.password u) = true.
Proof.
  destruct (login_token_only_on_match (crypto := Sample.crypto) Sample.env 5000
              {| Body.email := Some (JS.JStr "admin@toelettatura.com");
                 Body.password := Some (JS.JStr "admin123") |}
              Run.seeded Run.admin_token eq_refl)
    as (u & pw & Hu & _ & Hpw & Hmatch & _).
  injection Hpw as <-. exists u. split; assumption.
Defined.

(** A wrong password on the store with appointment 1. *)
Lemma login_writes_nothing_witness :
  appointments
    (snd (login (crypto := Sample.crypto) Sample.env 5000
            {| Body.email := Some (JS.JStr "admin@toelettatura.com");
               Body.password := Some (JS.JStr "wrong") |} Run.booked)) =
  appointments Run.booked.
Proof.
  apply (login_writes_nothing (crypto := Sample.crypto) Sample.env 5000
           {| Body.email := Some (JS.JStr "admin@toelettatura.com");
              Body.password := Some (JS.JStr "wrong") |} Run.booked).
Defined.

(** The gate on the administrator's token, an hour into its life: the
    request is let through, with what [jwt.verify] decoded from the second
    component of the header. *)
Lemma authenticateToken_sound_witness :
  exists user header t,
    authenticateToken (crypto := Sample.crypto) Sample.env 6000
      (Some ("Bearer " +:+ Run.admin_token)) = Next user
    /\ Some ("Bearer " +:+ Run.admin_token) = Some header
    /\ JS.split " " header !! 1%nat = Some t
    /\ t <> ""
    /\ jwt_verify (Crypto := Sample.crypto) t (JWT_SECRET Sample.env) 6000 = inr user
    /\ Jwt.userId (Jwt.claims user) = 1.
Proof.
  pose proof (authenticateToken_sound (crypto := Sample.crypto) Sample.env 6000
                (Some ("Bearer " +:+ Run.admin_token))) as Hgate.
  destruct (authenticateToken (crypto := Sample.crypto) Sample.env 6000
              (Some ("Bearer " +:+ Run.admin_token))) as [user|r] eqn:Hanswer.
  - destruct Hgate as (header & t & Hheader & Hsplit & Ht & Hverify).
    exists user, header, t. split; [reflexivity|]. repeat (split; [assumption|]).
    vm_compute in Hanswer. injection Hanswer as <-. reflexivity.
  - vm_compute in Hanswer. discriminate Hanswer.
Defined.

(** The administrator's token under Basic with a trailing word, and a
    header with two spaces. *)
Lemma authenticateToken_second_component_witness :
  authenticateToken (crypto := Sample.crypto) Sample.env 6000
    (Some ("Basic" +:+ " " +:+ Run.admin_token +:+ " " +:+ "trailing")) =
  authenticateToken (crypto := Sample.crypto) Sample.env 6000
    (Some ("Bearer " +:+ Run.admin_token))
  /\ authenticateToken (crypto := Sample.crypto) Sample.env 6000
       (Some ("Basic" +:+ " " +:+ " " +:+ "trailing")) = Respond token_required.
Proof.
  apply (authenticateToken_second_component (crypto := Sample.crypto) Sample.env 6000
           "Basic" Run.admin_token "trailing"); reflexivity.
Defined.

(** The status update without an Authorization header. *)
Lemma put_appointment_status_guarded_witness :
  put_appointment_status (crypto := Sample.crypto) (engine := Sample.engine) Sample.env
    6000 3000 None "1" Run.confirm Run.booked = (token_required, Run.booked).
Proof.
  exact (proj1 (put_appointment_status_guarded (crypto := Sample.crypto)
                  (engine := Sample.engine) Sample.env 6000 3000 None "1" Run.confirm
                  Run.booked)).
Defined.

(** The administrator's token, an hour into its life. *)
Lemma session_opens_routes_witness :
  put_appointment_status (crypto := Sample.crypto) (engine := Sample.engine) Sample.env
    6000 3000 (Some ("Bearer " +:+ Run.admin_token)) "1" Run.confirm Run.booked =
  updateStatus (engine := Sample.engine) 3000 "1" Run.confirm Run.booked.
Proof.
  apply (session_opens_routes (contract := sample_contract) (engine := Sample.engine)
           Sample.env 5000 6000 3000
           {| Jwt.userId := 1; Jwt.email := "admin@toelettatura.com" |}
           "1" Run.confirm Run.booked).
  lia.
Defined.

(** Appointment 1 is in the listing. *)
Lemma select_appointments_complete_witness :
  exists row,
    row ∈ select_appointments Run.booked
    /\ Listing.appointment row =
       {| Appointments.id := 1; Appointments.columns := Run.pending |}.
Proof.
  destruct (select_appointments_complete Run.booked) as (Hall & _).
  apply (Hall 1 Run.pending). reflexivity.
Defined.

Lemma booked_keyed : catalog_keyed Run.booked.
Proof. apply (bool_decide_unpack _). vm_compute. exact I. Qed.

(** The listing of the store with one appointment. *)
Lemma select_appointments_one_row_each_witness :
  List.length (select_appointments Run.booked) = size (appointments Run.booked).
Proof.
  apply (select_appointments_one_row_each Run.booked booked_keyed).
Defined.

(** The listing asked for with the administrator's token, an hour into
    its life, on the store with appointment 1: the rows are the listing of
    the store, and the token is the second component of the header. *)
Lemma listAppointments_guarded_witness :
  exists rows header t user,
    listAppointments (crypto := Sample.crypto) Sample.env 6000
      (Some ("Bearer " +:+ Run.admin_token)) Run.booked = inr rows
    /\ rows = select_appointments Run.booked
    /\ Some ("Bearer " +:+ Run.admin_token) = Some header
    /\ JS.split " " header !! 1%nat = Some t
    /\ t <> ""
    /\ jwt_verify (Crypto := Sample.crypto) t (JWT_SECRET Sample.env) 6000 = inr user.
Proof.
  pose proof (listAppointments_guarded (crypto := Sample.crypto) Sample.env 6000
                (Some ("Bearer " +:+ Run.admin_token)) Run.booked) as Hgate.
  destruct (listAppointments (crypto := Sample.crypto) Sample.env 6000
              (Some ("Bearer " +:+ Run.admin_token)) Run.booked) as [r|rows] eqn:Hanswer.
  - vm_compute in Hanswer. discriminate Hanswer.
  - destruct Hgate as (Hrows & header & t & user & Hheader & Hsplit & Ht & Hverify).
    exists rows, header, t, user. split; [reflexivity|]. repeat split; assumption.
Defined.

(** A second booking leaves appointment 1 alone. *)
Lemma createAppointment_keeps_records_witness :
  appointments (snd (createAppointment (engine := Sample.engine) 2500 Run.fido Run.booked))
    !! 1 = Some Run.pending.
Proof.
  apply (createAppointment_keeps_records (engine := Sample.engine) 2500 Run.fido
           Run.booked 1 Run.pending booked_consistent).
  reflexivity.
Defined.

(** The booking for a service that is not in the catalog. *)
Lemma createAppointment_stores_on_success_only_witness :
  appointments
    (snd (createAppointment (engine := Sample.engine) 2000 Run.dangling Run.seeded)) =
  appointments Run.seeded.
Proof.
  destruct (createAppointment_stores_on_success_only (engine := Sample.engine) 2000
              Run.dangling Run.seeded) as (_ & _ & Hkept).
  exact Hkept.
Defined.

(** Appointment 1 rejected: the catalog is the one before. *)
Lemma updateStatus_keeps_bookings_witness :
  same_catalog (snd (updateStatus (engine := Sample.engine) 3000 "1" Run.reject Run.booked))
    Run.booked.
Proof.
  destruct (updateStatus_keeps_bookings (engine := Sample.engine) 3000 "1" Run.reject
              Run.booked) as (_ & _ & Hcatalog & _).
  exact Hcatalog.
Defined.

(** The largest INTEGER. *)
Lemma int4in_number_to_string_witness :
  Pg.int4in (JS.number_to_string 2147483647) = inr 2147483647.
Proof. apply int4in_number_to_string. lia. Defined.

(** The booking for Fido, then its confirmation under the identifier
    returned. *)
Lemma created_appointment_is_updated_witness :
  fst (updateStatus (engine := Sample.engine) 3000 (JS.number_to_string 1) Run.confirm
         Run.booked) =
  respond 200
    (Http.Appointment
       {| Appointments.id := 1;
          Appointments.columns := set_status (Some "confirmed") None None 3000 Run.pending |}).
Proof.
  apply (created_appointment_is_updated (engine := Sample.engine) 2000 3000 Run.fido
           Run.confirm Run.seeded "Appuntamento creato con successo" 1 Run.pending
           "confirmed" None None eq_refl).
  - cbn. lia.
  - reflexivity.
  - reflexivity.
  - cbn. lia.
  - reflexivity.
  - reflexivity.
Defined.

(** The store with appointment 1. *)
Lemma reachable_consistent_witness : consistent Run.booked.
Proof.
  exact (reachable_consistent (crypto := Sample.crypto) (engine := Sample.engine)
           Sample.env Run.booked booked_reachable).
Defined.

(** The store with appointment 1. *)
Lemma reachable_well_typed_witness : well_typed Run.booked /\ catalog_keyed Run.booked.
Proof.
  exact (reachable_well_typed (crypto := Sample.crypto) (engine := Sample.engine)
           Sample.env Run.booked booked_reachable).
Defined.

(** The administrator logs in at 5000 on the store seeded at 1000 and
    presents the token at 6000. *)
Lemma seeded_admin_session_witness :
  exists token,
    authenticateToken (crypto := Sample.crypto) Sample.env 6000
      (Some ("Bearer " +:+ token)) =
    Next {| Jwt.claims := {| Jwt.userId := 1; Jwt.email := "admin@toelettatura.com" |};
            Jwt.iat := 5000; Jwt.exp := 5000 + 24 * 3600 |}.
Proof.
  destruct (seeded_admin_session (contract := sample_contract) Sample.env 1000 5000 6000)
    as (token & _ & Hgate); [lia|].
  exists token. exact Hgate.
Defined.

(** The environment without JWT_SECRET. *)
Lemma JWT_SECRET_fallback_witness : JWT_SECRET Sample.env <> "".
Proof.
  exact (proj1 (JWT_SECRET_fallback (contract := sample_contract) Sample.env
                  {| Jwt.userId := 1; Jwt.email := "admin@toelettatura.com" |} 5000 6000)).
Defined.
